(** * ffaas: the ingress request builder and the runtime worker

    A shallow embedding of
    - [internal/shared]: [MakeProtoRequest], [trimmedEndpointFromURL],
      [makeProtoHeader];
    - [pkg/actrs/runtime.go]: [Runtime.Receive], [Runtime.exec],
      [envMapToSlice], [RequestModule] and its two host functions.

    Go strings are byte strings ([string]), byte slices are [list byte]
    (a nil slice and an empty slice are both []), Go maps are [gmap].
    The one slice that shares its array with something else, the response
    buffer over the guest memory, is followed as a view of that memory.
    A Go function that can panic returns in [go]; the runtime worker, which
    also logs, responds and writes to shared stores, runs in the monad [M]
    that records those effects in program order. *)

From Stdlib Require Import ZArith Lia DecimalString DecimalZ.
From Stdlib.Strings Require Import Byte Ascii String.
From stdpp Require Import base list strings gmap.

Local Open Scope string_scope.

(** ** Go prelude *)

Module Go.

(** The outcome of a call: it returns a value or it panics. *)
Inductive go (A : Type) : Type :=
| Ret (a : A)
| Panic (why : string).
Global Arguments Ret {A} a.
Global Arguments Panic {A} why.

(** [(T, error)] results. *)
Inductive result (A : Type) : Type :=
| Ok (a : A)
| Err (e : string).
Global Arguments Ok {A} a.
Global Arguments Err {A} e.

Definition go_bind {A B} (x : go A) (f : A → go B) : go B :=
  match x with
  | Ret a => f a
  | Panic w => Panic w
  end.

(** [s[lo:]] on a slice: a run-time panic unless [lo <= len(s)]. *)
Definition slice_from {A} (s : list A) (lo : nat) : go (list A) :=
  if (lo <=? length s)%nat then Ret (drop lo s)
  else Panic "slice bounds out of range".

(** [strings.TrimPrefix]. *)
Fixpoint strip_prefix (prefix s : string) : option string :=
  match prefix with
  | EmptyString => Some s
  | String a prefix' =>
      match s with
      | EmptyString => None
      | String b s' => if Ascii.eqb a b then strip_prefix prefix' s' else None
      end
  end.

Definition TrimPrefix (s prefix : string) : string :=
  match strip_prefix prefix s with
  | Some rest => rest
  | None => s
  end.

(** [strings.Split(s, sep)] for a one-byte separator, the only way the
    repository calls it. The split of the rest is never empty, so the
    first branch of the inner match is not reached. *)
Fixpoint Split (s : string) (sep : ascii) : list string :=
  match s with
  | EmptyString => [EmptyString]
  | String c s' =>
      if Ascii.eqb c sep then EmptyString :: Split s' sep
      else match Split s' sep with
           | [] => [String c EmptyString]
           | part :: parts => String c part :: parts
           end
  end.

(** [strings.Join]. *)
Fixpoint Join (elems : list string) (sep : string) : string :=
  match elems with
  | [] => EmptyString
  | [e] => e
  | e :: rest => e ++ sep ++ Join rest sep
  end.

(** [strconv.Itoa] and its inverse [strconv.Atoi] on canonical input. *)
Definition Itoa (i : Z) : string := NilEmpty.string_of_int (Z.to_int i).

Definition Atoi (s : string) : option Z :=
  match NilEmpty.int_of_string s with
  | Some d => Some (Z.of_int d)
  | None => None
  end.

(** A string of decimal digits. *)
Definition is_digit (c : ascii) : bool :=
  (48 <=? nat_of_ascii c)%nat && (nat_of_ascii c <=? 57)%nat.

Fixpoint all_digits (s : string) : bool :=
  match s with
  | EmptyString => true
  | String c s' => is_digit c && all_digits s'
  end.

(** A byte of a string is absent from it. *)
Fixpoint no_byte (c : ascii) (s : string) : bool :=
  match s with
  | EmptyString => true
  | String a s' => negb (Ascii.eqb a c) && no_byte c s'
  end.

(** Number of occurrences of a byte in a string. *)
Fixpoint count_byte (c : ascii) (s : string) : nat :=
  match s with
  | EmptyString => 0
  | String a s' => (if Ascii.eqb a c then 1 else 0) + count_byte c s'
  end.

#[global] Instance go_ret : MRet go := λ A a, Ret a.
#[global] Instance go_mbind : MBind go := λ A B f x, go_bind x f.

(** [s[lo:hi]] on a slice, the bounds being Go [int]s. The capacity is
    taken to be the length, the least it can be. *)
Definition slice {A} (s : list A) (lo hi : Z) : go (list A) :=
  if ((0 <=? lo) && (lo <=? hi) && (hi <=? Z.of_nat (length s)))%Z
  then Ret (take (Z.to_nat (hi - lo)) (drop (Z.to_nat lo) s))
  else Panic "slice bounds out of range".

(** [s[lo:hi]] on a string. *)
Definition str_slice (s : string) (lo hi : Z) : go string :=
  if ((0 <=? lo) && (lo <=? hi) && (hi <=? Z.of_nat (String.length s)))%Z
  then Ret (String.substring (Z.to_nat lo) (Z.to_nat (hi - lo)) s)
  else Panic "slice bounds out of range".

(** A byte as a number, and the low eight bits of a number as a byte. *)
Definition byte_to_Z (b : byte) : Z := Z.of_N (Byte.to_N b).

Definition byte_of_Z (z : Z) : byte :=
  match Byte.of_N (Z.to_N (Z.land z 255)) with
  | Some b => b
  | None => x00
  end.

(** [binary.LittleEndian.Uint32]; it indexes [b[3]] first. *)
Definition Uint32 (b : list byte) : go Z :=
  match b with
  | b0 :: b1 :: b2 :: b3 :: _ =>
      Ret (Z.lor (Z.lor (Z.lor (byte_to_Z b0)
                                (Z.shiftl (byte_to_Z b1) 8))
                         (Z.shiftl (byte_to_Z b2) 16))
                  (Z.shiftl (byte_to_Z b3) 24))
  | _ => Panic "index out of range"
  end.

(** The four bytes [binary.LittleEndian.PutUint32] writes. *)
Definition PutUint32 (v : Z) : list byte :=
  [ byte_of_Z v; byte_of_Z (Z.shiftr v 8);
    byte_of_Z (Z.shiftr v 16); byte_of_Z (Z.shiftr v 24) ].

(** [encoding/hex]: the value of a hexadecimal digit, of either case. *)
Definition fromHexChar (c : ascii) : option Z :=
  let n := Z.of_nat (nat_of_ascii c) in
  if ((48 <=? n) && (n <=? 57))%Z then Some (n - 48)%Z
  else if ((97 <=? n) && (n <=? 102))%Z then Some (n - 97 + 10)%Z
  else if ((65 <=? n) && (n <=? 70))%Z then Some (n - 65 + 10)%Z
  else None.

(** [hex.DecodeString]: the bytes decoded before the first error, and
    the error. *)
Fixpoint hex_DecodeString (s : string) : list byte * option string :=
  match s with
  | EmptyString => ([], None)
  | String p EmptyString =>
      match fromHexChar p with
      | Some _ => ([], Some "encoding/hex: odd length hex string")
      | None => ([], Some "encoding/hex: invalid byte")
      end
  | String p (String q rest) =>
      match fromHexChar p, fromHexChar q with
      | Some a, Some b =>
          let r := hex_DecodeString rest in
          (byte_of_Z (Z.lor (Z.shiftl a 4) b) :: r.1, r.2)
      | _, _ => ([], Some "encoding/hex: invalid byte")
      end
  end.

(** [hex.EncodeToString]. *)
Definition hex_digit (n : Z) : ascii :=
  if (n <? 10)%Z then ascii_of_nat (Z.to_nat (48 + n))
  else ascii_of_nat (Z.to_nat (87 + n)).

Fixpoint hex_EncodeToString (b : list byte) : string :=
  match b with
  | [] => EmptyString
  | x :: rest =>
      String (hex_digit (Z.shiftr (byte_to_Z x) 4))
        (String (hex_digit (Z.land (byte_to_Z x) 15))
           (hex_EncodeToString rest))
  end.

End Go.
Import Go.

(** ** internal/shared *)

Module Shared.

(** [url.URL], of which the code reads [Path]. *)
Record URL := { Path : string }.

(** What [io.ReadAll] gets out of a request body. *)
Definition Body := result (list byte).

(** [http.Request]. *)
Record Request := {
  Method : string;
  Url : URL;
  Header : gmap string (list string);
  ReqBody : Body;
}.

(** [proto.HeaderFields]. *)
Record HeaderFields := { Fields : list string }.

(** [proto.HTTPRequest] as [MakeProtoRequest] fills it. *)
Record HTTPRequest := {
  pHeader : gmap string HeaderFields;
  pID : string;
  pBody : list byte;
  pMethod : string;
  pURL : string;
}.

Definition makeProtoHeader (header : gmap string (list string))
  : gmap string HeaderFields :=
  (λ v, {| Fields := v |}) <$> header.

Definition trimmedEndpointFromURL (url : URL) : go string :=
  let path := TrimPrefix (Path url) "/" in
  let pathParts := Split path "/"%char in
  if (length pathParts =? 0)%nat then Ret "/"
  else go_bind (slice_from pathParts 2) (λ rest, Ret ("/" ++ Join rest "/")).

Definition MakeProtoRequest (id : string) (r : Request)
  : go (result HTTPRequest) :=
  match ReqBody r with
  | Err e => Ret (Err e)
  | Ok b =>
      go_bind (trimmedEndpointFromURL (Url r)) (λ u,
        Ret (Ok {| pHeader := makeProtoHeader (Header r);
                   pID := id;
                   pBody := b;
                   pMethod := Method r;
                   pURL := u |}))
  end.

(** *** The response a guest leaves on its standard output *)

Definition magicLen : Z := 8.

Definition errInvalidHTTPResponse : string := "invalid HTTP response".

(** The named results of [ParseStdout]. *)
Record Parsed := {
  logs : list byte;
  resp : list byte;
  status : Z;
  err : option string;
}.

(** [ParseStdout]: its results and the lines it prints. The argument is
    what [io.ReadAll] gets out of the reader; [int] has 64 bits. *)
Definition ParseStdout (stdout : result (list byte))
  : go (Parsed * list string) :=
  match stdout with
  | Err e => Ret ({| logs := []; resp := []; status := 0; err := Some e |}, [])
  | Ok stdoutb =>
      let outLen := Z.of_nat (length stdoutb) in
      if (outLen <? magicLen)%Z
      then Ret ({| logs := []; resp := []; status := 0;
                   err := Some
                     "mallformed HTTP response missing last 8 bytes" |}, [])
      else
        let magicStart := (outLen - magicLen)%Z in
        b ← slice stdoutb magicStart (magicStart + 4);
        st ← Uint32 b;
        b' ← slice stdoutb (magicStart + 4) outLen;
        respLen ← Uint32 b';
        let printed := [Itoa st] in
        if (respLen >? outLen - magicLen)%Z
        then Ret ({| logs := []; resp := []; status := st;
                     err := Some "response length exceeds available data" |},
                  printed)
        else
          let respStart := (outLen - magicLen - respLen)%Z in
          rs ← slice stdoutb respStart (respStart + respLen);
          lg ← slice stdoutb 0 respStart;
          Ret ({| logs := lg; resp := rs; status := st; err := None |},
               printed)
  end.

(** [ParseRuntimeHTTPResponse]: the named results [(resp, status, err)].
    [hex.DecodeString] hands back the bytes decoded before an error as a
    slice of a longer array; [b[0:4]] and [b[4:8]] stay within that array
    and read [spare], what the array holds past the decoded bytes, when
    fewer than eight were decoded. *)
Definition ParseRuntimeHTTPResponse (spare : list byte) (input : string)
  : go (string * Z * option string) :=
  let n := Z.of_nat (String.length input) in
  if (n <? 16)%Z
  then Ret (EmptyString, 0%Z,
            Some "misformed HTTP response missing last 16 bytes")
  else
    tail ← str_slice input (n - 16) n;
    let d := hex_DecodeString tail in
    let e := match d.2 with
             | Some _ => Some errInvalidHTTPResponse
             | None => None
             end in
    let array := (d.1 ++ spare)%list in
    b03 ← slice array 0 4;
    st ← Uint32 b03;
    b47 ← slice array 4 8;
    respLen ← Uint32 b47;
    rs ← str_slice input (n - 16 - respLen) (n - 16);
    Ret (rs, st, e).

End Shared.

(** ** pkg/actrs/runtime.go *)

Module Actrs.

(** *** Values the worker handles *)

(** [uuid.UUID], sixteen bytes. *)
Definition UUID := list byte.

(** [time.Time] and [time.Duration], in nanoseconds. *)
Definition Time := Z.

(** [actor.PID]. *)
Record PID := { Address : string; PidID : string }.

(** [wazero.CompilationCache]: a handle on a cache object that wazero
    owns and fills; the worker only moves the handle around. *)
Record CompilationCache := { handle : nat }.

Module Endpoint.
(** [types.Endpoint], the fields the worker reads. *)
Record t := {
  ID : UUID;
  ActiveDeployID : UUID;
  Environment : gmap string string;
}.
End Endpoint.

Module Deploy.
(** [types.Deploy], the fields the worker reads. *)
Record t := {
  ID : UUID;
  EndpointID : UUID;
  Blob : list byte;
}.
End Deploy.

Module RuntimeMetric.
(** [types.RuntimeMetric]. *)
Record t := {
  ID : UUID;
  StartTime : Time;
  Duration : Z;
  DeployID : UUID;
  EndpointID : UUID;
  RequestURL : string;
}.
End RuntimeMetric.

Module HTTPRequest.
(** [proto.HTTPRequest], the wire request. *)
Record t := {
  ID : string;
  EndpointID : string;
  Method : string;
  URL : string;
  Header : gmap string (list string);
  Body : list byte;
}.
End HTTPRequest.

Module HTTPResponse.
(** [proto.HTTPResponse], the wire response. *)
Record t := {
  Response : list byte;
  RequestID : string;
  StatusCode : Z;
}.
End HTTPResponse.

(** [http.StatusOK]. *)
Definition StatusOK : Z := 200.

(** *** Guest linear memory ([wazero/api.Memory])

    [Read] and [Write] follow the contract of the interface: both check
    the range against the size of the memory; out of range, [Read] yields
    [nil, false] and [Write] leaves the memory alone and yields [false].
    The slice [Read] returns is a view of the memory, not a copy; the
    request module below keeps track of where it points. *)

Definition Memory := list byte.

Definition hasSize (m : Memory) (offset byteCount : Z) : bool :=
  (offset + byteCount <=? Z.of_nat (length m))%Z.

Definition Memory_Read (m : Memory) (offset byteCount : Z)
  : list byte * bool :=
  if hasSize m offset byteCount
  then (take (Z.to_nat byteCount) (drop (Z.to_nat offset) m), true)
  else ([], false).

Definition Memory_Write (m : Memory) (offset : Z) (v : list byte)
  : Memory * bool :=
  if hasSize m offset (Z.of_nat (length v))
  then ((take (Z.to_nat offset) m ++ v
           ++ drop (Z.to_nat offset + length v) m)%list, true)
  else (m, false).

(** [wapi.DecodeU32]: [uint32(v)] of a 64-bit stack slot. *)
Definition DecodeU32 (v : Z) : Z := Z.land v 0xFFFFFFFF.

(** *** The request module *)

Module RequestModule.
Record t := {
  requestBytes : list byte;
  responseBytes : list byte;
}.
End RequestModule.
Import RequestModule.

(** [RequestModule.Close]. *)
Definition Close (r : RequestModule.t) : RequestModule.t :=
  {| requestBytes := []; responseBytes := [] |}.

(** The body of the host function [moduleWriteRequest] returns: the guest
    memory after the call ([r] itself is not changed). *)
Definition moduleWriteRequest (r : RequestModule.t)
    (module : Memory) (stack0 : Z) : Memory :=
  let offset := DecodeU32 stack0 in
  fst (Memory_Write module offset (requestBytes r)).

(** *** The guest and the request module while it runs

    [moduleWriteResponse] keeps the slice [Memory.Read] returns, which is
    a view of the guest memory: what the response buffer holds is what
    the guest memory holds in that window, also after later writes by the
    guest or by [write_request]. That lasts as long as the guest memory
    stays in the same array; when [memory.grow] moves it to a larger
    array, the slice keeps the old array and what it held (the contract
    of [Memory.Read]). *)

(** Where the response buffer points: at a window of the guest memory,
    or away from it (nil, or an array the guest memory has left). *)
Inductive View :=
| Detached
| Window (offset size : Z).

(** The guest memory and the request module during a run. *)
Record Running := {
  guest_memory : Memory;
  host : RequestModule.t;
  view : View;
}.

Definition window (module : Memory) (offset size : Z) : list byte :=
  take (Z.to_nat size) (drop (Z.to_nat offset) module).

(** The state once the guest memory holds [module]: a response buffer
    that views the memory shows the new bytes. *)
Definition refresh (s : Running) (module : Memory) : Running :=
  {| guest_memory := module;
     host := match view s with
             | Window offset size =>
                 {| requestBytes := requestBytes (host s);
                    responseBytes := window module offset size |}
             | Detached => host s
             end;
     view := view s |}.

(** The body of the host function [moduleWriteResponse] returns: the
    response buffer becomes the slice [Read] gave, a view of the window
    when the range is inside the memory and nil otherwise. *)
Definition moduleWriteResponse (s : Running) (stack0 stack1 : Z) : Running :=
  let offset := DecodeU32 stack0 in
  let size := DecodeU32 stack1 in
  let resp := Memory_Read (guest_memory s) offset size in
  {| guest_memory := guest_memory s;
     host := {| requestBytes := requestBytes (host s);
                responseBytes := fst resp |};
     view := if snd resp then Window offset size else Detached |}.

(** What the guest does, as far as the request module can tell: its
    calls of the two functions exported by module [env], with the stack
    the host function receives, and between them its own stores inside
    its memory and the growth of its memory, by a number of zero bytes
    (whole pages in WebAssembly), which may move the memory to another
    array. *)
Inductive GuestStep :=
| write_request (stack0 : Z)
| write_response (stack0 stack1 : Z)
| stores (offset : nat) (bytes : list byte)
| grows (bytes : nat) (moved : bool).

(** A guest run: its steps, and the error, if any, with which
    [InstantiateModule] comes back. *)
Record GuestRun := {
  calls : list GuestStep;
  start_err : option string;
}.

Definition guest_step (s : Running) (c : GuestStep) : Running :=
  match c with
  | write_request stack0 =>
      refresh s (moduleWriteRequest (host s) (guest_memory s) stack0)
  | write_response stack0 stack1 => moduleWriteResponse s stack0 stack1
  | stores offset bytes =>
      refresh s
        (fst (Memory_Write (guest_memory s) (Z.of_nat offset) bytes))
  | grows n moved =>
      let grown := (guest_memory s ++ replicate n x00)%list in
      if moved
      then {| guest_memory := grown; host := host s; view := Detached |}
      else refresh s grown
  end.

Definition run_steps (s : Running) (cs : list GuestStep) : Running :=
  foldl guest_step s cs.

(** The run starts with an empty memory, so that the pages a guest
    declares are its first [grows], and with a response buffer that views
    nothing. *)
Definition start (r : RequestModule.t) : Running :=
  {| guest_memory := []; host := r; view := Detached |}.

(** The request module as the guest's run leaves it. *)
Definition run_calls (r : RequestModule.t) (cs : list GuestStep)
  : RequestModule.t :=
  host (run_steps (start r) cs).

Definition is_write_response (c : GuestStep) : bool :=
  match c with
  | write_response _ _ => true
  | _ => false
  end.

(** A step after which the response buffer still views the window it
    viewed before. *)
Definition keeps_view (c : GuestStep) : bool :=
  match c with
  | write_response _ _ => false
  | grows _ moved => negb moved
  | _ => true
  end.

(** The configuration [exec] hands to the WASI builder. *)
Record WasiConfig := {
  Name : string;
  Args : list string;
  Stdio : Z * Z * Z;
  Env : list string;
  Dirs : list string;
  NonBlockingStdio : bool;
  SocketsExtension : string;
  MaxOpenFiles : Z;
  MaxOpenDirs : Z;
}.

(** A compiled module: what the guest does once instantiated under a
    WASI configuration. *)
Definition CompiledModule := WasiConfig → GuestRun.

(** *** Effects, in program order *)

Inductive Event :=
| Warn (msg : string)
| Respond (resp : HTTPResponse.t)
| Poison (pid : PID)
| CreateRuntimeMetric (metric : RuntimeMetric.t)
| CachePut (id : UUID) (cache : CompilationCache).

Definition M (A : Type) : Type := list Event * go A.

#[global] Instance M_ret : MRet M := λ A a, ([], Ret a).

#[global] Instance M_bind : MBind M := λ A B f x,
  match x.2 with
  | Ret a => ((x.1 ++ (f a).1)%list, (f a).2)
  | Panic w => (x.1, Panic w)
  end.

Definition emit (e : Event) : M unit := ([e], Ret tt).
Definition panic {A} (why : string) : M A := ([], Panic why).

(** The events of a run, and the run's outcome. *)
Definition trace {A} (x : M A) : list Event := x.1.
Definition outcome {A} (x : M A) : go A := x.2.

Definition is_Warn (e : Event) : bool :=
  match e with Warn _ => true | _ => false end.
Definition is_Respond (e : Event) : bool :=
  match e with Respond _ => true | _ => false end.
Definition is_Metric (e : Event) : bool :=
  match e with CreateRuntimeMetric _ => true | _ => false end.
Definition is_Poison (e : Event) : bool :=
  match e with Poison _ => true | _ => false end.
Definition is_CachePut (e : Event) : bool :=
  match e with CachePut _ _ => true | _ => false end.

(** A stretch of a trace that holds log lines only. *)
Definition all_warnings (t : list Event) : Prop :=
  Forall (λ e, is_Warn e = true) t.

(** Number of events that satisfy [p]. *)
Definition count (p : Event → bool) (t : list Event) : nat :=
  length (List.filter p t).

(** *** Collaborators: storage interfaces and libraries *)

(** [storage.Store], the two lookups the worker makes. *)
Record Store := {
  GetEndpoint : UUID → result Endpoint.t;
  GetDeploy : UUID → result Deploy.t;
}.

(** [storage.MetricStore]: the error [CreateRuntimeMetric] returns, if
    any; the write itself is the event [CreateRuntimeMetric]. *)
Record MetricStore := {
  CreateRuntimeMetric_err : RuntimeMetric.t → option string;
}.

(** [storage.ModCacher]: [Get]; [Put] is the event [CachePut]. *)
Record ModCacher := {
  Get : UUID → option CompilationCache;
}.

(** What the libraries answer during one invocation of [Receive]. *)
Record World := {
  uuid_Parse : string → result UUID;
  uuid_New : UUID;
  time_Now : Time;
  prot_Marshal : HTTPRequest.t → result (list byte);
  NewCompilationCache : CompilationCache;
  CompileModule : CompilationCache → list byte → result CompiledModule;
  wasi_Instantiate : WasiConfig → result unit;
}.

(** *** The worker *)

Record Runtime := {
  store : Store;
  metricStore : MetricStore;
  cache : ModCacher;
  started : Time;
}.

Inductive Message :=
| Started
| Stopped
| HTTPRequestMsg (msg : HTTPRequest.t)
| OtherMsg.

(** [actor.Context]: the message being handled and the worker's own PID. *)
Record Context := {
  Message_ : Message;
  PID_ : PID;
}.

(** The log lines of the three places where the handler warns and goes
    on: a cache miss, a guest that comes back with an error, a metric the
    store refuses. *)
Definition miss_log (r : Runtime) (endpoint : Endpoint.t) : list Event :=
  match Get (cache r) (Endpoint.ID endpoint) with
  | Some _ => []
  | None => [Warn "no cache hit"]
  end.

Definition guest_log (run : GuestRun) : list Event :=
  match start_err run with
  | Some _ => [Warn "failed to instantiate guest module"]
  | None => []
  end.

Definition metric_log (r : Runtime) (metric : RuntimeMetric.t) : list Event :=
  match CreateRuntimeMetric_err (metricStore r) metric with
  | Some _ => [Warn "failed to create runtime metric"]
  | None => []
  end.

(** [envMapToSlice]; Go ranges over the map in no fixed order, the model
    in the order of [map_to_list]. *)
Definition envMapToSlice (env : gmap string string) : list string :=
  (λ kv, kv.1 ++ "=" ++ kv.2) <$> map_to_list env.

Section Worker.
Variable W : World.

Definition MustParse (s : string) : M UUID :=
  match uuid_Parse W s with
  | Ok id => mret id
  | Err e => panic ("uuid: Parse(" ++ s ++ "): " ++ e)
  end.

(** [NewRequestModule]; [Err] stands for the [(nil, err)] return. *)
Definition NewRequestModule (req : HTTPRequest.t) : result RequestModule.t :=
  match prot_Marshal W req with
  | Err e => Err e
  | Ok b => Ok {| requestBytes := b; responseBytes := [] |}
  end.

(** Dereference of a [*RequestModule]. *)
Definition deref (p : option RequestModule.t) : M RequestModule.t :=
  match p with
  | Some r => mret r
  | None => panic "invalid memory address or nil pointer dereference"
  end.

Definition builder (requestLen : string) (env : gmap string string)
  : WasiConfig :=
  {| Name := "run";
     Args := [requestLen];
     Stdio := (-1, -1, -1)%Z;
     Env := envMapToSlice env;
     Dirs := ["/"];
     NonBlockingStdio := false;
     SocketsExtension := "auto";
     MaxOpenFiles := 10;
     MaxOpenDirs := 10 |}.

(** [Runtime.exec]. The request module is reached through a pointer, so
    [exec] returns it as the guest left it. The deferred [runtime.Close]
    and [system.Close] release wazero's own resources and leave the
    request module alone. *)
Definition exec (blob : list byte) (cache : CompilationCache)
    (env : gmap string string) (httpmod : option RequestModule.t)
  : M (option RequestModule.t) :=
  match CompileModule W cache blob with
  | Err e => emit (Warn "compiling module failed");; mret httpmod
  | Ok compiled =>
      r ← deref httpmod;
      let requestLen := Itoa (Z.of_nat (length (requestBytes r))) in
      let b := builder requestLen env in
      match wasi_Instantiate W b with
      | Err e =>
          emit (Warn "failed to instantiate wasi module");; mret (Some r)
      | Ok _ =>
          let run := compiled b in
          let r' := run_calls r (calls run) in
          match start_err run with
          | Some e =>
              emit (Warn "failed to instantiate guest module");;
              mret (Some r')
          | None => mret (Some r')
          end
      end
  end.

(** The [*proto.HTTPRequest] case of [Runtime.Receive]. It returns the
    request module as the case leaves it ([None] when the case returns
    before building one, or builds a nil one). *)
Definition ReceiveHTTPRequest (r : Runtime) (c : Context)
    (msg : HTTPRequest.t) : M (option RequestModule.t) :=
  id ← MustParse (HTTPRequest.EndpointID msg);
  match GetEndpoint (store r) id with
  | Err e =>
      emit (Warn "runtime could not find endpoint from store");; mret None
  | Ok endpoint =>
      match GetDeploy (store r) (Endpoint.ActiveDeployID endpoint) with
      | Err e =>
          emit (Warn
            "runtime could not find the endpoint's active deploy from store");;
          mret None
      | Ok deploy =>
          let httpmod :=
            match NewRequestModule msg with
            | Ok m => Some m
            | Err _ => None
            end in
          modcache ←
            match Get (cache r) (Endpoint.ID endpoint) with
            | Some mc => mret mc
            | None => emit (Warn "no cache hit");;
                      mret (NewCompilationCache W)
            end;
          httpmod ← exec (Deploy.Blob deploy) modcache
                      (Endpoint.Environment endpoint) httpmod;
          h ← deref httpmod;
          let resp :=
            {| HTTPResponse.Response := responseBytes h;
               HTTPResponse.RequestID := HTTPRequest.ID msg;
               HTTPResponse.StatusCode := StatusOK |} in
          emit (Respond resp);;
          emit (Poison (PID_ c));;
          let metric :=
            {| RuntimeMetric.ID := uuid_New W;
               RuntimeMetric.StartTime := started r;
               RuntimeMetric.Duration := (time_Now W - started r)%Z;
               RuntimeMetric.DeployID := Deploy.ID deploy;
               RuntimeMetric.EndpointID := Deploy.EndpointID deploy;
               RuntimeMetric.RequestURL := HTTPRequest.URL msg |} in
          emit (CreateRuntimeMetric metric);;
          match CreateRuntimeMetric_err (metricStore r) metric with
          | Some e => emit (Warn "failed to create runtime metric")
          | None => mret tt
          end;;
          emit (CachePut (Endpoint.ID endpoint) modcache);;
          mret (Some h)
      end
  end.

(** The compilation cache the case works with: the cached one, or a new
    one on a miss. *)
Definition modcache_for (r : Runtime) (endpoint : Endpoint.t)
  : CompilationCache :=
  match Get (cache r) (Endpoint.ID endpoint) with
  | Some mc => mc
  | None => NewCompilationCache W
  end.

(** [Runtime.Receive]: the worker after the message. *)
Definition Receive (r : Runtime) (c : Context) : M Runtime :=
  match Message_ c with
  | Started =>
      mret {| store := store r; metricStore := metricStore r;
              cache := cache r; started := time_Now W |}
  | Stopped => mret r
  | HTTPRequestMsg msg => ReceiveHTTPRequest r c msg;; mret r
  | OtherMsg => mret r
  end.

(** *** The engine's side of a message ([hollywood/actor])

    [Engine.Poison] does not stop the worker on the spot: it puts a
    poison pill in the inbox of the process behind the PID and returns.
    The process has one message in hand at a time; it takes the pill
    once the handler of the message in hand has returned, hands the
    worker [actor.Stopped] and removes it from the registry. A worker
    that never poisons its own PID stays registered. What the engine
    does with a handler that panics is not modelled: the delivery ends
    with the panic. *)
Inductive WorkerEvent :=
| Did (e : Event)
| Removed.

Definition PID_eqb (p q : PID) : bool :=
  String.eqb (Address p) (Address q) && String.eqb (PidID p) (PidID q).

Definition poisons (pid : PID) (e : Event) : bool :=
  match e with
  | Poison p => PID_eqb p pid
  | _ => false
  end.

(** One message delivered to the worker, with what follows from it: the
    effects of the handler and, when the handler has poisoned the
    worker's own PID, the handling of [actor.Stopped] and the removal of
    the worker. *)
Definition deliver (r : Runtime) (c : Context) : list WorkerEvent :=
  let handled := Receive r c in
  ((Did <$> trace handled) ++
   match outcome handled with
   | Ret r' =>
       if existsb (poisons (PID_ c)) (trace handled)
       then (Did <$> trace (Receive r' {| Message_ := Stopped;
                                           PID_ := PID_ c |}))
            ++ [Removed]
       else []
   | Panic _ => []
   end)%list.

End Worker.

(** [NewRuntime]: the worker the producer makes; [started] is the zero
    time until the worker gets [Started]. *)
Definition zero_time : Time := 0%Z.

Definition NewRuntime (store : Store) (metricStore : MetricStore)
    (cache : ModCacher) : Runtime :=
  {| store := store; metricStore := metricStore; cache := cache;
     started := zero_time |}.

End Actrs.

(** ** A concrete deployment, used to run the definitions *)

Module Sample.
Import Actrs.

Definition endpoint_text : string := "6ba7b810-9dad-11d1-80b4-00c04fd430c8".
Definition endpoint_id : UUID := [x6b; xa7; xb8; x10].
Definition deploy_id : UUID := [xde; xad; xbe; xef].
Definition metric_id : UUID := [x00; x01].

(** The only text the sample parser knows is [endpoint_text]. *)
Definition parse (s : string) : result UUID :=
  if String.eqb s endpoint_text then Ok endpoint_id
  else Err "invalid UUID length".

Definition endpoint : Endpoint.t :=
  {| Endpoint.ID := endpoint_id;
     Endpoint.ActiveDeployID := deploy_id;
     Endpoint.Environment := {[ "FOO" := "BAR" ]} |}.

Definition deploy : Deploy.t :=
  {| Deploy.ID := deploy_id;
     Deploy.EndpointID := endpoint_id;
     Deploy.Blob := [x00; x61; x73; x6d] |}.

(** A guest with sixteen bytes of memory that asks for the request at
    offset 0 and answers [OK] from offset 12. *)
Definition guest : CompiledModule := λ cfg,
  {| calls := [ grows 16 false;
                write_request 0;
                stores 12 [x4f; x4b];
                write_response 12 2 ];
     start_err := None |}.

Definition world : World :=
  {| uuid_Parse := parse;
     uuid_New := metric_id;
     time_Now := 1500%Z;
     prot_Marshal := λ req, Ok (list_byte_of_string (HTTPRequest.URL req));
     NewCompilationCache := {| handle := 7 |};
     CompileModule := λ _ _, Ok guest;
     wasi_Instantiate := λ _, Ok tt |}.

(** A store that holds [endpoint] and [deploy]. *)
Definition full_store : Store :=
  {| GetEndpoint := λ _, Ok endpoint;
     GetDeploy := λ _, Ok deploy |}.

(** An empty store. *)
Definition empty_store : Store :=
  {| GetEndpoint := λ _, Err "could not find endpoint";
     GetDeploy := λ _, Err "could not find deployment" |}.

Definition worker (s : Store) : Runtime :=
  {| store := s;
     metricStore := {| CreateRuntimeMetric_err := λ _, None |};
     cache := {| Get := λ _, None |};
     started := 1000%Z |}.

Definition request : HTTPRequest.t :=
  {| HTTPRequest.ID := "req-1";
     HTTPRequest.EndpointID := endpoint_text;
     HTTPRequest.Method := "GET";
     HTTPRequest.URL := "/anything";
     HTTPRequest.Header := ∅;
     HTTPRequest.Body := [] |}.

Definition bad_request : HTTPRequest.t :=
  {| HTTPRequest.ID := "req-2";
     HTTPRequest.EndpointID := "not-a-uuid";
     HTTPRequest.Method := "GET";
     HTTPRequest.URL := "/";
     HTTPRequest.Header := ∅;
     HTTPRequest.Body := [] |}.

Definition self : PID := {| Address := "local"; PidID := "runtime/1" |}.

Definition ctx (m : HTTPRequest.t) : Context :=
  {| Message_ := HTTPRequestMsg m; PID_ := self |}.

Definition inbound : Shared.Request :=
  {| Shared.Method := "GET";
     Shared.Url := {| Shared.Path := "/live/" ++ endpoint_text ++ "/anything" |};
     Shared.Header := {[ "Accept" := ["*/*"] ]};
     Shared.ReqBody := Ok [] |}.

End Sample.

(** ** The command line client *)

Module Cli.

(** A call that returns, or ends the process through [os.Exit]. *)
Inductive proc (A : Type) : Type :=
| Returns (a : A)
| Exits (code : Z) (message : string).
Global Arguments Returns {A} a.
Global Arguments Exits {A} code message.

(** [stringList], the value of the repeated [--env] flag. *)
Definition stringList := list string.

Definition Set_ (l : stringList) (value : string) : stringList :=
  (l ++ [value])%list.

Definition String_ (l : stringList) : string := Join l ":".

(** [printErrorAndExit] prints the error and exits with status 1. *)
Definition printErrorAndExit {A} (e : string) : proc A := Exits 1 e.

(** The message of [makeEnvMap] about a malformed flag. *)
Definition envError : string :=
  "env arguments need to be in the format of --env foo=bar --env name=bob".

(** The loop of [makeEnvMap], from the map built so far. *)
Fixpoint makeEnvMap_loop (m : gmap string string) (list : list string)
  : proc (gmap string string) :=
  match list with
  | [] => Returns m
  | value :: rest =>
      let parts := Split value "="%char in
      match parts with
      | [k; v] => makeEnvMap_loop (<[k := v]> m) rest
      | _ => printErrorAndExit envError
      end
  end.

Definition makeEnvMap (list : list string) : proc (gmap string string) :=
  makeEnvMap_loop ∅ list.

End Cli.

(** ** The helper of the API tests *)

Module ApiTest.

(** [types.Endpoint] as the tests build it. *)
Record Endpoint := {
  ID : Actrs.UUID;
  Name : string;
  Runtime : string;
  Environment : gmap string string;
  ActiveDeploymentID : Actrs.UUID;
}.

(** [==] on [uuid.UUID] compares the sixteen bytes. *)
#[global] Instance UUID_eq_dec : EqDecision Actrs.UUID :=
  @list_eq_dec byte Byte.byte_eq_dec.

(** The inner loop: is there an endpoint of [s2] with the id of [item1]. *)
Definition found_in (s2 : list Endpoint) (item1 : Endpoint) : bool :=
  existsb (λ item2, bool_decide (ID item1 = ID item2)) s2.

Definition endpointsExistsInEndpoints (s1 s2 : list Endpoint) : bool :=
  if negb (length s1 =? length s2)%nat then false
  else forallb (found_in s2) s1.

End ApiTest.

(** ** More sample values, used to run the definitions *)

Module Sample2.
Import Actrs Sample.

(** The clock at the start of the worker, before that of [world]. *)
Definition start_world : World :=
  {| uuid_Parse := parse;
     uuid_New := metric_id;
     time_Now := 1000%Z;
     prot_Marshal := λ req, Ok (list_byte_of_string (HTTPRequest.URL req));
     NewCompilationCache := {| handle := 7 |};
     CompileModule := λ _ _, Ok guest;
     wasi_Instantiate := λ _, Ok tt |}.

Definition start_ctx : Context := {| Message_ := Started; PID_ := self |}.

(** A world in which the request does not serialise. *)
Definition mute_world : World :=
  {| uuid_Parse := parse;
     uuid_New := metric_id;
     time_Now := 1500%Z;
     prot_Marshal := λ _, Err "string field contains invalid UTF-8";
     NewCompilationCache := {| handle := 7 |};
     CompileModule := λ _ _, Ok guest;
     wasi_Instantiate := λ _, Ok tt |}.

(** A request whose URL holds the byte [0xff], which no UTF-8 text
    holds: the path [/live/<id>/%ff] once the ingress has decoded it. *)
Definition garbled_request : HTTPRequest.t :=
  {| HTTPRequest.ID := "req-3";
     HTTPRequest.EndpointID := endpoint_text;
     HTTPRequest.Method := "GET";
     HTTPRequest.URL := String "/" (String (ascii_of_byte xff) EmptyString);
     HTTPRequest.Header := ∅;
     HTTPRequest.Body := [] |}.

(** [world] with a [prot.Marshal] that refuses such a string field, as
    the library does for a proto3 message. *)
Definition utf8_world : World :=
  {| uuid_Parse := parse;
     uuid_New := metric_id;
     time_Now := 1500%Z;
     prot_Marshal := λ req,
       if Go.no_byte (ascii_of_byte xff) (HTTPRequest.URL req)
       then Ok (list_byte_of_string (HTTPRequest.URL req))
       else Err "string field contains invalid UTF-8";
     NewCompilationCache := {| handle := 7 |};
     CompileModule := λ _ _, Ok guest;
     wasi_Instantiate := λ _, Ok tt |}.

(** A request module that holds the two bytes [/a], and a guest with
    eight bytes of memory that puts [OK] at offset 0, calls
    [write_response(0, 2)] and then does one thing more: it asks for the
    request at offset 0, or stores two bytes of its own there, or grows
    its memory into another array and then stores. *)
Definition slash_a : RequestModule.t :=
  {| RequestModule.requestBytes := [x2f; x61];
     RequestModule.responseBytes := [] |}.

Definition puts_OK : list GuestStep := [grows 8 false; stores 0 [x4f; x4b]].

Definition then_asks : list GuestStep := [write_request 0].

Definition then_stores : list GuestStep := [stores 0 [x01; x00]].

Definition then_moves : list GuestStep :=
  [grows 8 true; stores 0 [x01; x00]].

(** Two endpoints of the API tests. *)
Definition first_endpoint : ApiTest.Endpoint :=
  {| ApiTest.ID := endpoint_id;
     ApiTest.Name := "My endpoint";
     ApiTest.Runtime := "go";
     ApiTest.Environment := {[ "FOO" := "BAR" ]};
     ApiTest.ActiveDeploymentID := [] |}.

Definition second_endpoint : ApiTest.Endpoint :=
  {| ApiTest.ID := deploy_id;
     ApiTest.Name := "My endpoint";
     ApiTest.Runtime := "go";
     ApiTest.Environment := {[ "Bar" := "foo" ]};
     ApiTest.ActiveDeploymentID := [] |}.

End Sample2.

(** * Properties *)

(** ** Go strings *)

Section GoStrings.
Import Shared.

Lemma Split_length (s : string) (sep : ascii) : (1 ≤ length (Split s sep))%nat.
Proof.
  induction s as [|c s IH]; simpl; [lia|].
  destruct (Ascii.eqb c sep); simpl; [lia|].
  destruct (Split s sep); simpl; lia.
Qed.

Lemma Join_cons_byte (c : ascii) (part : string) (parts : list string)
    (sep : string) :
  Join (String c part :: parts) sep = String c (Join (part :: parts) sep).
Proof. destruct parts; reflexivity. Qed.

Lemma Join_Split (s : string) (sep : ascii) :
  Join (Split s sep) (String sep EmptyString) = s.
Proof.
  induction s as [|c s IH]; [reflexivity|].
  simpl Split. destruct (Ascii.eqb c sep) eqn:E.
  - apply Ascii.eqb_eq in E. subst c.
    pose proof (Split_length s sep) as L.
    destruct (Split s sep) as [|p ps] eqn:S; [simpl in L; lia|].
    change (Join (EmptyString :: p :: ps) (String sep EmptyString))
      with (String sep (Join (p :: ps) (String sep EmptyString))).
    now rewrite IH.
  - pose proof (Split_length s sep) as L.
    destruct (Split s sep) as [|p ps] eqn:S; [simpl in L; lia|].
    rewrite Join_cons_byte. now rewrite IH.
Qed.

Lemma Split_segment (a b : string) (sep : ascii) :
  no_byte sep a = true →
  Split (a ++ String sep b) sep = a :: Split b sep.
Proof.
  induction a as [|c a IH]; simpl; intros H.
  - now rewrite Ascii.eqb_refl.
  - apply andb_prop in H as [Hc Ha].
    apply negb_true_iff in Hc. rewrite Hc, (IH Ha). reflexivity.
Qed.

Lemma slice_from_short {A} (s : list A) (lo : nat) :
  (length s < lo)%nat → slice_from s lo = Panic "slice bounds out of range".
Proof.
  intros H. unfold slice_from.
  destruct (lo <=? length s)%nat eqn:E; [|reflexivity].
  apply Nat.leb_le in E. lia.
Qed.

Lemma makeProtoHeader_Fields (header : gmap string (list string)) :
  Fields <$> makeProtoHeader header = header.
Proof.
  unfold makeProtoHeader. rewrite <- map_fmap_compose.
  apply map_eq. intros k. rewrite lookup_fmap.
  now destruct (header !! k).
Qed.

End GoStrings.

(** ** The wire request built by the ingress *)

Section Ingress.
Import Shared.

(** C8. For an inbound request whose path is [/live/{endpoint_id}/{guest_path}]
    (the endpoint segment holds no slash) and whose body can be read,
    [MakeProtoRequest] returns a wire request whose URL is ["/"] followed by
    the guest path, and whose method, body and headers are those of the
    inbound request (each header's values wrapped in [HeaderFields]). *)
Theorem MakeProtoRequest_strips_live_prefix
    (id : string) (r : Request) (endpoint_id guest_path : string)
    (b : list byte) :
  Path (Url r) = "/live/" ++ endpoint_id ++ "/" ++ guest_path →
  no_byte "/" endpoint_id = true →
  ReqBody r = Ok b →
  ∃ req, MakeProtoRequest id r = Ret (Ok req)
    ∧ pURL req = "/" ++ guest_path
    ∧ pMethod req = Method r
    ∧ pBody req = b
    ∧ Fields <$> pHeader req = Header r
    ∧ pID req = id.
Proof.
  intros HP Hseg HB. unfold MakeProtoRequest, trimmedEndpointFromURL.
  rewrite HB, HP.
  change (TrimPrefix ("/live/" ++ endpoint_id ++ "/" ++ guest_path) "/")
    with ("live" ++ String "/" (endpoint_id ++ String "/" guest_path)).
  rewrite (Split_segment "live") by reflexivity.
  rewrite (Split_segment endpoint_id) by exact Hseg.
  cbn [length Nat.eqb]. unfold slice_from.
  cbn [length Nat.leb drop go_bind].
  eexists. split; [reflexivity|]. cbn [pURL pMethod pBody pHeader pID].
  rewrite drop_0, Join_Split, makeProtoHeader_Fields. auto.
Qed.

Lemma MakeProtoRequest_strips_live_prefix_witness :
  ∃ req, MakeProtoRequest "req-1" Sample.inbound = Ret (Ok req)
    ∧ pURL req = "/anything"
    ∧ pMethod req = "GET"
    ∧ pBody req = []
    ∧ Fields <$> pHeader req = {[ "Accept" := ["*/*"] ]}
    ∧ pID req = "req-1".
Proof.
  exact (MakeProtoRequest_strips_live_prefix "req-1" Sample.inbound
           Sample.endpoint_text "anything" []
           eq_refl eq_refl eq_refl).
Defined.

(** C10. When the path, with its leading slash trimmed, splits into fewer
    than two segments, [trimmedEndpointFromURL] panics at [pathParts[2:]];
    the split is never empty, so the [len(pathParts) == 0] branch is not
    taken. *)
Theorem trimmedEndpointFromURL_panics_on_short_path (url : URL) :
  (length (Split (TrimPrefix (Path url) "/") "/"%char) < 2)%nat →
  trimmedEndpointFromURL url = Panic "slice bounds out of range"
  ∧ (length (Split (TrimPrefix (Path url) "/") "/"%char) =? 0)%nat = false
  ∧ ∀ s sep, (length (Split s sep) =? 0)%nat = false.
Proof.
  intros H.
  assert (G : ∀ s sep, (length (Split s sep) =? 0)%nat = false).
  { intros s sep. apply Nat.eqb_neq. pose proof (Split_length s sep). lia. }
  split; [|split; [apply G | exact G]].
  unfold trimmedEndpointFromURL. rewrite G.
  rewrite slice_from_short by lia. reflexivity.
Qed.

Lemma trimmedEndpointFromURL_panics_on_short_path_witness :
  trimmedEndpointFromURL {| Path := "/" |} = Panic "slice bounds out of range".
Proof.
  apply (trimmedEndpointFromURL_panics_on_short_path {| Path := "/" |}).
  simpl. lia.
Defined.

End Ingress.

(** ** The request module and the guest ABI *)

Section GuestABI.
Import Actrs Actrs.RequestModule.

Lemma DecodeU32_nonneg (v : Z) : (0 ≤ DecodeU32 v)%Z.
Proof. unfold DecodeU32. apply Z.land_nonneg. right. lia. Qed.

Lemma Atoi_Itoa (i : Z) : Atoi (Itoa i) = Some i.
Proof.
  unfold Atoi, Itoa. rewrite NilEmpty.isi. f_equal. apply DecimalZ.of_to.
Qed.

Lemma string_of_uint_digits (d : Decimal.uint) :
  all_digits (NilEmpty.string_of_uint d) = true.
Proof. induction d; cbn; auto. Qed.

Lemma Itoa_digits (i : Z) : (0 ≤ i)%Z → all_digits (Itoa i) = true.
Proof.
  intros Hi. unfold Itoa.
  destruct i as [|p|p]; [reflexivity| |lia].
  cbn. apply string_of_uint_digits.
Qed.

Lemma Memory_Write_length (m : Memory) (offset : Z) (v : list byte) :
  (0 ≤ offset)%Z →
  length (Memory_Write m offset v).1 = length m.
Proof.
  intros Ho. unfold Memory_Write, hasSize.
  destruct (_ <=? _)%Z eqn:E; [|reflexivity].
  apply Z.leb_le in E. cbn [fst].
  rewrite !length_app, length_take, length_drop. lia.
Qed.

Lemma Memory_Read_Write (m : Memory) (offset : Z) (v : list byte) :
  (0 ≤ offset)%Z →
  (offset + Z.of_nat (length v) ≤ Z.of_nat (length m))%Z →
  Memory_Read (Memory_Write m offset v).1 offset (Z.of_nat (length v))
  = (v, true).
Proof.
  intros Ho Hr.
  pose proof (Memory_Write_length m offset v Ho) as L.
  unfold Memory_Read, hasSize. rewrite L.
  destruct (_ <=? _)%Z eqn:E; [|apply Z.leb_gt in E; lia].
  f_equal. unfold Memory_Write, hasSize. rewrite E. cbn [fst].
  rewrite Nat2Z.id.
  rewrite drop_app_length' by (rewrite length_take; lia).
  apply take_app_length.
Qed.

Lemma run_steps_app (s : Running) (cs ds : list GuestStep) :
  run_steps s (cs ++ ds)%list = run_steps (run_steps s cs) ds.
Proof. apply foldl_app. Qed.

Lemma guest_step_requestBytes (s : Running) (c : GuestStep) :
  requestBytes (host (guest_step s c)) = requestBytes (host s).
Proof.
  destruct c as [s0|s0 s1|o v|n [|]]; cbn; try reflexivity;
    now destruct (view s).
Qed.

Lemma run_steps_requestBytes (cs : list GuestStep) (s : Running) :
  requestBytes (host (run_steps s cs)) = requestBytes (host s).
Proof.
  revert s. induction cs as [|c cs IH]; intros s; [reflexivity|].
  cbn [run_steps foldl]. fold (run_steps (guest_step s c) cs).
  now rewrite IH, guest_step_requestBytes.
Qed.

Lemma run_calls_requestBytes (cs : list GuestStep) (r : RequestModule.t) :
  requestBytes (run_calls r cs) = requestBytes r.
Proof. unfold run_calls. now rewrite run_steps_requestBytes. Qed.

(** Without a call of [write_response], a buffer that views nothing is
    left as it is. *)
Lemma run_steps_detached (cs : list GuestStep) (s : Running) :
  forallb (λ c, negb (is_write_response c)) cs = true →
  view s = Detached →
  host (run_steps s cs) = host s ∧ view (run_steps s cs) = Detached.
Proof.
  revert s. induction cs as [|c cs IH]; intros s H Hv; [easy|].
  cbn [forallb] in H. apply andb_prop in H as [Hc Hcs].
  cbn [run_steps foldl]. fold (run_steps (guest_step s c) cs).
  assert (G : host (guest_step s c) = host s
              ∧ view (guest_step s c) = Detached).
  { destruct c as [s0|s0 s1|o v|n [|]]; cbn; rewrite ?Hv;
      try discriminate Hc; easy. }
  destruct G as [Gh Gv]. destruct (IH _ Hcs Gv) as [-> ->]. easy.
Qed.

Lemma run_calls_no_write_response (cs : list GuestStep) (r : RequestModule.t) :
  forallb (λ c, negb (is_write_response c)) cs = true →
  run_calls r cs = r.
Proof.
  intros H. unfold run_calls.
  now destruct (run_steps_detached cs (start r) H eq_refl) as [-> _].
Qed.

(** A buffer that views a window still shows that window of the guest
    memory after steps that keep the view. *)
Lemma run_steps_keeps_view (cs : list GuestStep) (s : Running)
    (offset size : Z) :
  forallb keeps_view cs = true →
  view s = Window offset size →
  responseBytes (host s) = window (guest_memory s) offset size →
  view (run_steps s cs) = Window offset size
  ∧ responseBytes (host (run_steps s cs))
    = window (guest_memory (run_steps s cs)) offset size.
Proof.
  revert s. induction cs as [|c cs IH]; intros s H Hv Hr; [easy|].
  cbn [forallb] in H. apply andb_prop in H as [Hc Hcs].
  cbn [run_steps foldl]. fold (run_steps (guest_step s c) cs).
  apply (IH _ Hcs);
    destruct c as [s0|s0 s1|o v|n [|]]; cbn; rewrite ?Hv;
    try discriminate Hc; try reflexivity; exact Hv.
Qed.


(** X24. Once the guest memory has grown into another array, the
    response buffer keeps what it held at that moment: whatever the guest
    stores or asks for afterwards, short of another call of
    [write_response], does not show in it. *)
Theorem moved_memory_leaves_buffer
    (s : Running) (n : nat) (after : list GuestStep) :
  forallb (λ c, negb (is_write_response c)) after = true →
  host (run_steps s (grows n true :: after)) = host s.
Proof.
  intros H. cbn [run_steps foldl].
  fold (run_steps (guest_step s (grows n true)) after).
  now destruct (run_steps_detached after (guest_step s (grows n true))
                  H eq_refl) as [-> _].
Qed.

End GuestABI.

(** ** The runtime worker *)

Section RuntimeWorker.
Import Actrs Actrs.RequestModule.
Variable W : World.

Lemma exec_compile_failed blob mc env p e :
  CompileModule W mc blob = Err e →
  exec W blob mc env p = ([Warn "compiling module failed"], Ret p).
Proof. intros H. unfold exec. now rewrite H. Qed.

Lemma exec_wasi_failed blob mc env r compiled e :
  CompileModule W mc blob = Ok compiled →
  wasi_Instantiate W
    (builder (Itoa (Z.of_nat (length (requestBytes r)))) env) = Err e →
  exec W blob mc env (Some r)
  = ([Warn "failed to instantiate wasi module"], Ret (Some r)).
Proof. intros H1 H2. unfold exec. rewrite H1. cbn. now rewrite H2. Qed.

Lemma exec_guest_ran blob mc env r compiled u :
  CompileModule W mc blob = Ok compiled →
  wasi_Instantiate W
    (builder (Itoa (Z.of_nat (length (requestBytes r)))) env) = Ok u →
  let run :=
    compiled (builder (Itoa (Z.of_nat (length (requestBytes r)))) env) in
  exec W blob mc env (Some r)
  = (guest_log run, Ret (Some (run_calls r (calls run)))).
Proof.
  intros H1 H2 run. unfold exec. rewrite H1. cbn. rewrite H2.
  fold run. unfold guest_log. now destruct (start_err run).
Qed.

Lemma guest_log_warnings run : all_warnings (guest_log run).
Proof. unfold guest_log. destruct (start_err run); repeat constructor. Qed.

Lemma miss_log_warnings r endpoint : all_warnings (miss_log r endpoint).
Proof. unfold miss_log. destruct (Get _ _); repeat constructor. Qed.

Lemma metric_log_warnings r metric : all_warnings (metric_log r metric).
Proof.
  unfold metric_log. destruct (CreateRuntimeMetric_err _ _);
    repeat constructor.
Qed.

Lemma exec_returns blob mc env r :
  ∃ t r', exec W blob mc env (Some r) = (t, Ret (Some r'))
    ∧ all_warnings t ∧ requestBytes r' = requestBytes r.
Proof.
  destruct (CompileModule W mc blob) as [compiled|e] eqn:HC.
  - destruct (wasi_Instantiate W
      (builder (Itoa (Z.of_nat (length (requestBytes r)))) env))
      as [u|e] eqn:HW.
    + rewrite (exec_guest_ran blob mc env r compiled u HC HW).
      do 2 eexists. split; [reflexivity|].
      split; [apply guest_log_warnings | apply run_calls_requestBytes].
    + rewrite (exec_wasi_failed blob mc env r compiled e HC HW).
      do 2 eexists. split; [reflexivity|]. split; [|reflexivity].
      repeat constructor.
  - rewrite (exec_compile_failed blob mc env (Some r) e HC).
    do 2 eexists. split; [reflexivity|]. split; [|reflexivity].
    repeat constructor.
Qed.

(** The trace of a handled request whose endpoint and deployment resolve:
    the log of a cache miss, the log of [exec], then response, poison and
    metric, the log of a refused metric, and the cache write. *)
Lemma ReceiveHTTPRequest_resolved r c msg id endpoint deploy b :
  uuid_Parse W (HTTPRequest.EndpointID msg) = Ok id →
  GetEndpoint (store r) id = Ok endpoint →
  GetDeploy (store r) (Endpoint.ActiveDeployID endpoint) = Ok deploy →
  prot_Marshal W msg = Ok b →
  ∃ te h metric,
    exec W (Deploy.Blob deploy) (modcache_for W r endpoint)
      (Endpoint.Environment endpoint)
      (Some {| requestBytes := b; responseBytes := [] |})
    = (te, Ret (Some h))
    ∧ all_warnings te
    ∧ metric
      = {| RuntimeMetric.ID := uuid_New W;
           RuntimeMetric.StartTime := started r;
           RuntimeMetric.Duration := (time_Now W - started r)%Z;
           RuntimeMetric.DeployID := Deploy.ID deploy;
           RuntimeMetric.EndpointID := Deploy.EndpointID deploy;
           RuntimeMetric.RequestURL := HTTPRequest.URL msg |}
    ∧ ReceiveHTTPRequest W r c msg
      = ((miss_log r endpoint ++ te ++
          [ Respond {| HTTPResponse.Response := responseBytes h;
                       HTTPResponse.RequestID := HTTPRequest.ID msg;
                       HTTPResponse.StatusCode := 200 |};
            Poison (PID_ c);
            CreateRuntimeMetric metric ]
          ++ metric_log r metric
          ++ [ CachePut (Endpoint.ID endpoint) (modcache_for W r endpoint) ]
         )%list,
         Ret (Some h)).
Proof.
  intros HP HE HD HM.
  destruct (exec_returns (Deploy.Blob deploy) (modcache_for W r endpoint)
              (Endpoint.Environment endpoint)
              {| requestBytes := b; responseBytes := [] |})
    as (te & h & Ex & Hte & _).
  exists te, h. eexists. split; [exact Ex|]. split; [exact Hte|].
  split; [reflexivity|].
  unfold ReceiveHTTPRequest, MustParse, NewRequestModule.
  rewrite HP. cbn. rewrite HE, HD, HM.
  unfold modcache_for, miss_log, metric_log in *.
  destruct (Get (cache r) (Endpoint.ID endpoint)) as [mc|]; cbn;
    rewrite Ex; cbn;
    destruct (CreateRuntimeMetric_err (metricStore r) _); cbn;
    rewrite <- ?app_assoc; reflexivity.
Qed.

Lemma Receive_HTTPRequest r c msg :
  Message_ c = HTTPRequestMsg msg →
  trace (Receive W r c) = trace (ReceiveHTTPRequest W r c msg)
  ∧ outcome (Receive W r c)
    = go_bind (outcome (ReceiveHTTPRequest W r c msg)) (λ _, Ret r).
Proof.
  intros H. unfold Receive. rewrite H.
  destruct (ReceiveHTTPRequest W r c msg) as [t [a|w]]; cbn;
    [rewrite app_nil_r|]; auto.
Qed.

Lemma filter_warnings (p : Event → bool) (t : list Event) :
  (∀ e, is_Warn e = true → p e = false) →
  all_warnings t → List.filter p t = [].
Proof.
  intros Hp Ht. induction Ht as [|e t He _ IH]; [reflexivity|].
  cbn. now rewrite (Hp e He).
Qed.

Lemma Warn_not_Respond e : is_Warn e = true → is_Respond e = false.
Proof. now destruct e. Qed.

Lemma Warn_not_Metric e : is_Warn e = true → is_Metric e = false.
Proof. now destruct e. Qed.

Lemma warnings_hold_no_metric (t : list Event) (m : RuntimeMetric.t) :
  all_warnings t → ¬ In (CreateRuntimeMetric m) t.
Proof.
  intros Ht Hin. unfold all_warnings in Ht.
  rewrite List.Forall_forall in Ht. specialize (Ht _ Hin). discriminate Ht.
Qed.

(** Responses and metrics of the trace of a resolved request. *)
Lemma resolved_trace_filter (p : Event → bool) (pre te mid : list Event)
    (e1 e2 e3 e4 : Event) :
  (∀ e, is_Warn e = true → p e = false) →
  all_warnings pre → all_warnings te → all_warnings mid →
  List.filter p (pre ++ te ++ [e1; e2; e3] ++ mid ++ [e4])%list
  = List.filter p [e1; e2; e3; e4].
Proof.
  intros Hp H1 H2 H3. rewrite !List.filter_app.
  rewrite (filter_warnings p pre Hp H1), (filter_warnings p te Hp H2),
          (filter_warnings p mid Hp H3).
  cbn. destruct (p e1), (p e2), (p e3), (p e4); reflexivity.
Qed.

(** C1, as the code has it. With an endpoint id that parses and a request
    that serialises: when endpoint and active deployment both resolve, the
    worker responds exactly once and hands exactly one metric to the metric
    store, and a failed compilation, a failed WASI instantiation, a guest
    that comes back with an error and a refused metric each leave a
    warning in the log; when either lookup fails, the worker logs one
    warning and returns with no response and no metric. *)
Theorem Receive_responds_iff_resolved r c msg id b :
  Message_ c = HTTPRequestMsg msg →
  uuid_Parse W (HTTPRequest.EndpointID msg) = Ok id →
  prot_Marshal W msg = Ok b →
  let t := trace (Receive W r c) in
  outcome (Receive W r c) = Ret r ∧
  match GetEndpoint (store r) id with
  | Err _ => t = [Warn "runtime could not find endpoint from store"]
  | Ok endpoint =>
      match GetDeploy (store r) (Endpoint.ActiveDeployID endpoint) with
      | Err _ =>
          t = [Warn
            "runtime could not find the endpoint's active deploy from store"]
      | Ok deploy =>
          let mc := modcache_for W r endpoint in
          let cfg := builder (Itoa (Z.of_nat (length b)))
                       (Endpoint.Environment endpoint) in
          count is_Respond t = 1%nat ∧ count is_Metric t = 1%nat
          ∧ (∀ e, CompileModule W mc (Deploy.Blob deploy) = Err e →
               In (Warn "compiling module failed") t)
          ∧ (∀ compiled e,
               CompileModule W mc (Deploy.Blob deploy) = Ok compiled →
               wasi_Instantiate W cfg = Err e →
               In (Warn "failed to instantiate wasi module") t)
          ∧ (∀ compiled u e,
               CompileModule W mc (Deploy.Blob deploy) = Ok compiled →
               wasi_Instantiate W cfg = Ok u →
               start_err (compiled cfg) = Some e →
               In (Warn "failed to instantiate guest module") t)
          ∧ (∀ metric e,
               In (CreateRuntimeMetric metric) t →
               CreateRuntimeMetric_err (metricStore r) metric = Some e →
               In (Warn "failed to create runtime metric") t)
      end
  end.
Proof.
  intros Hc HP HM t. subst t.
  destruct (Receive_HTTPRequest r c msg Hc) as [-> ->].
  destruct (GetEndpoint (store r) id) as [endpoint|e] eqn:HE.
  - destruct (GetDeploy (store r) (Endpoint.ActiveDeployID endpoint))
      as [deploy|e] eqn:HD.
    + destruct (ReceiveHTTPRequest_resolved r c msg id endpoint deploy b
                  HP HE HD HM) as (te & h & m & Ex & Hte & _ & ->).
      pose proof (miss_log_warnings r endpoint) as Hmiss.
      pose proof (metric_log_warnings r m) as Hmlog.
      split; [reflexivity|]. unfold count, trace. cbn [fst].
      rewrite !resolved_trace_filter
        by first [exact Warn_not_Respond | exact Warn_not_Metric | assumption].
      split; [reflexivity|]. split; [reflexivity|].
      split; [|split; [|split]].
      * intros e HCm. rewrite (exec_compile_failed _ _ _ _ e HCm) in Ex.
        inversion Ex; subst. rewrite !in_app_iff. right. left. now left.
      * intros compiled e HCm HW.
        rewrite (exec_wasi_failed _ _ _
                   {| requestBytes := b; responseBytes := [] |}
                   compiled e HCm HW) in Ex.
        inversion Ex; subst. rewrite !in_app_iff. right. left. now left.
      * intros compiled u e HCm HW Hs.
        rewrite (exec_guest_ran _ _ _
                   {| requestBytes := b; responseBytes := [] |}
                   compiled u HCm HW) in Ex.
        inversion Ex; subst. rewrite !in_app_iff. right. left.
        unfold guest_log. cbn [requestBytes]. rewrite Hs. now left.
      * intros m' e Hin Herr. rewrite !in_app_iff in Hin.
        assert (m' = m) as ->.
        { destruct Hin as [Hin|[Hin|[Hin|[Hin|Hin]]]].
          - now apply warnings_hold_no_metric in Hin.
          - now apply warnings_hold_no_metric in Hin.
          - cbn in Hin. destruct Hin as [Hin|[Hin|[Hin|[]]]];
              try discriminate Hin. now inversion Hin.
          - now apply warnings_hold_no_metric in Hin.
          - cbn in Hin. destruct Hin as [Hin|[]]. discriminate Hin. }
        rewrite !in_app_iff. right. right. right. left.
        unfold metric_log. rewrite Herr. now left.
    + unfold ReceiveHTTPRequest, MustParse. rewrite HP. cbn.
      rewrite HE, HD. split; reflexivity.
  - unfold ReceiveHTTPRequest, MustParse. rewrite HP. cbn.
    rewrite HE. split; reflexivity.
Qed.

(** X23. When endpoint and active deployment resolve and the request
    serialises, the one response the worker sends has status 200, the id
    of the wire request and, as body, the response buffer of the request
    module as [exec] left it; that buffer is empty when compilation fails,
    when the WASI instantiation fails, and when the guest makes no call to
    [write_response], as does a guest module that fails before it runs. *)
Theorem Receive_response_200 r c msg id endpoint deploy b :
  Message_ c = HTTPRequestMsg msg →
  uuid_Parse W (HTTPRequest.EndpointID msg) = Ok id →
  GetEndpoint (store r) id = Ok endpoint →
  GetDeploy (store r) (Endpoint.ActiveDeployID endpoint) = Ok deploy →
  prot_Marshal W msg = Ok b →
  let mc := modcache_for W r endpoint in
  let cfg := builder (Itoa (Z.of_nat (length b)))
               (Endpoint.Environment endpoint) in
  ∃ h,
    outcome (exec W (Deploy.Blob deploy) mc (Endpoint.Environment endpoint)
               (Some {| requestBytes := b; responseBytes := [] |}))
    = Ret (Some h)
    ∧ List.filter is_Respond (trace (Receive W r c))
      = [ Respond {| HTTPResponse.Response := responseBytes h;
                     HTTPResponse.RequestID := HTTPRequest.ID msg;
                     HTTPResponse.StatusCode := 200 |} ]
    ∧ (∀ e, CompileModule W mc (Deploy.Blob deploy) = Err e →
         responseBytes h = [])
    ∧ (∀ e, wasi_Instantiate W cfg = Err e → responseBytes h = [])
    ∧ (∀ compiled, CompileModule W mc (Deploy.Blob deploy) = Ok compiled →
         forallb (λ k, negb (is_write_response k)) (calls (compiled cfg))
         = true →
         responseBytes h = []).
Proof.
  intros Hc HP HE HD HM mc cfg.
  destruct (Receive_HTTPRequest r c msg Hc) as [-> _].
  destruct (ReceiveHTTPRequest_resolved r c msg id endpoint deploy b
              HP HE HD HM) as (te & h & m & Ex & Hte & _ & ->).
  fold mc in Ex. exists h. rewrite Ex. split; [reflexivity|].
  split.
  { unfold trace. cbn [fst].
    rewrite resolved_trace_filter;
      [reflexivity | exact Warn_not_Respond | apply miss_log_warnings
      | exact Hte | apply metric_log_warnings]. }
  split; [|split].
  - intros e HCm. rewrite (exec_compile_failed _ _ _ _ e HCm) in Ex.
    now inversion Ex.
  - intros e HW.
    destruct (CompileModule W mc (Deploy.Blob deploy)) as [compiled|e'] eqn:HCm.
    + rewrite (exec_wasi_failed _ _ _
        {| requestBytes := b; responseBytes := [] |} compiled e HCm HW) in Ex.
      now inversion Ex.
    + rewrite (exec_compile_failed _ _ _ _ e' HCm) in Ex. now inversion Ex.
  - intros compiled HCm Hno.
    destruct (wasi_Instantiate W cfg) as [u|e] eqn:HW.
    + rewrite (exec_guest_ran _ _ _
        {| requestBytes := b; responseBytes := [] |} compiled u HCm HW) in Ex.
      inversion Ex; subst h.
      now rewrite (run_calls_no_write_response _ _ Hno).
    + rewrite (exec_wasi_failed _ _ _
        {| requestBytes := b; responseBytes := [] |} compiled e HCm HW) in Ex.
      now inversion Ex.
Qed.

(** C3. When endpoint and active deployment resolve, the one metric handed
    to the metric store carries the id of the resolved deployment, that
    deployment's endpoint id and the URL of the wire request, next to a new
    metric id, the worker's start time and the time elapsed since. *)
Theorem Receive_metric_fields r c msg id endpoint deploy b :
  Message_ c = HTTPRequestMsg msg →
  uuid_Parse W (HTTPRequest.EndpointID msg) = Ok id →
  GetEndpoint (store r) id = Ok endpoint →
  GetDeploy (store r) (Endpoint.ActiveDeployID endpoint) = Ok deploy →
  prot_Marshal W msg = Ok b →
  List.filter is_Metric (trace (Receive W r c))
  = [ CreateRuntimeMetric
        {| RuntimeMetric.ID := uuid_New W;
           RuntimeMetric.StartTime := started r;
           RuntimeMetric.Duration := (time_Now W - started r)%Z;
           RuntimeMetric.DeployID := Deploy.ID deploy;
           RuntimeMetric.EndpointID := Deploy.EndpointID deploy;
           RuntimeMetric.RequestURL := HTTPRequest.URL msg |} ].
Proof.
  intros Hc HP HE HD HM.
  destruct (Receive_HTTPRequest r c msg Hc) as [-> _].
  destruct (ReceiveHTTPRequest_resolved r c msg id endpoint deploy b
              HP HE HD HM) as (te & h & m & _ & Hte & -> & ->).
  unfold trace. cbn [fst].
  rewrite resolved_trace_filter;
    [reflexivity | exact Warn_not_Metric | apply miss_log_warnings
    | exact Hte | apply metric_log_warnings].
Qed.

Lemma PID_eqb_refl (p : PID) : PID_eqb p p = true.
Proof. unfold PID_eqb. now rewrite !String.eqb_refl. Qed.

Lemma warnings_poison_nobody (pid : PID) (t : list Event) :
  all_warnings t → existsb (poisons pid) t = false.
Proof.
  intros Ht. induction Ht as [|e t He _ IH]; [reflexivity|].
  cbn. rewrite IH. now destruct e.
Qed.


(** The request module at the end of a handled request still holds the
    serialised request. *)
Lemma ReceiveHTTPRequest_keeps_requestBytes r c msg id endpoint deploy b :
  uuid_Parse W (HTTPRequest.EndpointID msg) = Ok id →
  GetEndpoint (store r) id = Ok endpoint →
  GetDeploy (store r) (Endpoint.ActiveDeployID endpoint) = Ok deploy →
  prot_Marshal W msg = Ok b →
  ∃ h, outcome (ReceiveHTTPRequest W r c msg) = Ret (Some h)
    ∧ requestBytes h = b.
Proof.
  intros HP HE HD HM.
  destruct (ReceiveHTTPRequest_resolved r c msg id endpoint deploy b
              HP HE HD HM) as (te & h & m & Ex & _ & _ & ->).
  exists h. split; [reflexivity|].
  destruct (exec_returns (Deploy.Blob deploy) (modcache_for W r endpoint)
              (Endpoint.Environment endpoint)
              {| requestBytes := b; responseBytes := [] |})
    as (te' & h' & Ex' & _ & Hb).
  rewrite Ex' in Ex. inversion Ex; subst. exact Hb.
Qed.

(** C7. When [exec] gets to start the guest, it starts it with one
    argument, the length of the request buffer written in decimal digits;
    and a guest that holds that many bytes of memory from offset [o] on
    finds the whole request buffer there after [write_request(o)]. *)
Theorem exec_startup_argument blob mc env r compiled u :
  let N := Z.of_nat (length (requestBytes r)) in
  CompileModule W mc blob = Ok compiled →
  wasi_Instantiate W (builder (Itoa N) env) = Ok u →
  ∃ cfg,
    outcome (exec W blob mc env (Some r))
    = Ret (Some (run_calls r (calls (compiled cfg))))
    ∧ Args cfg = [Itoa N]
    ∧ all_digits (Itoa N) = true
    ∧ Atoi (Itoa N) = Some N
    ∧ ∀ (module : Memory) (stack0 : Z),
        (DecodeU32 stack0 + N ≤ Z.of_nat (length module))%Z →
        Memory_Read (moduleWriteRequest r module stack0) (DecodeU32 stack0) N
        = (requestBytes r, true).
Proof.
  intros N HC HW.
  rewrite (exec_guest_ran blob mc env r compiled u HC HW).
  eexists. split; [reflexivity|]. split; [reflexivity|].
  split; [apply Itoa_digits; lia|]. split; [apply Atoi_Itoa|].
  intros module stack0 Hfit. unfold moduleWriteRequest.
  apply Memory_Read_Write; [apply DecodeU32_nonneg | exact Hfit].
Qed.

(** C9. A wire request whose endpoint id does not parse as a UUID makes
    [Receive] panic in [uuid.MustParse], before anything is logged, sent
    or stored. *)
Theorem Receive_panics_on_invalid_endpoint_id r c msg e :
  Message_ c = HTTPRequestMsg msg →
  uuid_Parse W (HTTPRequest.EndpointID msg) = Err e →
  Receive W r c
  = ([], Panic ("uuid: Parse(" ++ HTTPRequest.EndpointID msg ++ "): " ++ e)).
Proof.
  intros Hc HP. unfold Receive, ReceiveHTTPRequest, MustParse.
  rewrite Hc, HP. reflexivity.
Qed.

End RuntimeWorker.

(** ** The properties on the sample deployment *)

Section OnSample.
Import Actrs Actrs.RequestModule Sample.

Lemma Receive_responds_iff_resolved_witness :
  count is_Respond (trace (Receive world (worker full_store) (ctx request)))
  = 1%nat
  ∧ count is_Metric (trace (Receive world (worker full_store) (ctx request)))
    = 1%nat.
Proof.
  destruct (proj2 (Receive_responds_iff_resolved world (worker full_store)
                     (ctx request) request endpoint_id
                     (list_byte_of_string "/anything")
                     eq_refl eq_refl eq_refl)) as (H1 & H2 & _).
  exact (conj H1 H2).
Defined.

(** C1 as stated fails: with an empty store the worker logs the failed
    lookup and returns; it sends no response and emits no metric. *)
Lemma Receive_silent_when_endpoint_missing :
  ¬ (count is_Respond
       (trace (Receive world (worker empty_store) (ctx request))) = 1%nat
     ∧ count is_Metric
         (trace (Receive world (worker empty_store) (ctx request))) = 1%nat).
Proof. intros [H _]. vm_compute in H. discriminate H. Qed.

Lemma Receive_response_200_witness :
  List.filter is_Respond
    (trace (Receive world (worker full_store) (ctx request)))
  = [ Respond {| HTTPResponse.Response := [x4f; x4b];
                 HTTPResponse.RequestID := "req-1";
                 HTTPResponse.StatusCode := 200 |} ].
Proof.
  destruct (Receive_response_200 world (worker full_store) (ctx request)
              request endpoint_id endpoint deploy
              (list_byte_of_string "/anything")
              eq_refl eq_refl eq_refl eq_refl eq_refl)
    as (h & Ex & Hresp & _).
  vm_compute in Ex. inversion Ex; subst h. exact Hresp.
Defined.

Lemma Receive_metric_fields_witness :
  List.filter is_Metric
    (trace (Receive world (worker full_store) (ctx request)))
  = [ CreateRuntimeMetric
        {| RuntimeMetric.ID := metric_id;
           RuntimeMetric.StartTime := 1000%Z;
           RuntimeMetric.Duration := 500%Z;
           RuntimeMetric.DeployID := deploy_id;
           RuntimeMetric.EndpointID := endpoint_id;
           RuntimeMetric.RequestURL := "/anything" |} ].
Proof.
  exact (Receive_metric_fields world (worker full_store) (ctx request)
           request endpoint_id endpoint deploy
           (list_byte_of_string "/anything")
           eq_refl eq_refl eq_refl eq_refl eq_refl).
Defined.

(** C4 on the sample request: when the handler is done, the request module
    still holds the serialised request and the guest's response; [Close],
    which would empty both, has not been applied. *)
Theorem Receive_leaves_buffers_filled :
  ∃ h,
    outcome (ReceiveHTTPRequest world (worker full_store) (ctx request) request)
    = Ret (Some h)
    ∧ requestBytes h = list_byte_of_string "/anything"
    ∧ responseBytes h = [x4f; x4b]
    ∧ h ≠ Close h.
Proof.
  eexists. split; [vm_compute; reflexivity|].
  split; [reflexivity|]. split; [reflexivity|]. discriminate.
Qed.



Lemma exec_startup_argument_witness :
  ∃ cfg,
    outcome (exec world (Deploy.Blob deploy) {| handle := 7 |}
               (Endpoint.Environment endpoint)
               (Some {| requestBytes := list_byte_of_string "/anything";
                        responseBytes := [] |}))
    = Ret (Some (run_calls
                   {| requestBytes := list_byte_of_string "/anything";
                      responseBytes := [] |}
                   (calls (guest cfg))))
    ∧ Args cfg = ["9"]
    ∧ all_digits "9" = true
    ∧ Atoi "9" = Some 9%Z
    ∧ ∀ (module : Memory) (stack0 : Z),
        (DecodeU32 stack0 + 9 ≤ Z.of_nat (length module))%Z →
        Memory_Read
          (moduleWriteRequest
             {| requestBytes := list_byte_of_string "/anything";
                responseBytes := [] |} module stack0)
          (DecodeU32 stack0) 9
        = (list_byte_of_string "/anything", true).
Proof.
  exact (exec_startup_argument world (Deploy.Blob deploy) {| handle := 7 |}
           (Endpoint.Environment endpoint)
           {| requestBytes := list_byte_of_string "/anything";
              responseBytes := [] |}
           guest tt eq_refl eq_refl).
Defined.

Lemma Receive_panics_on_invalid_endpoint_id_witness :
  Receive world (worker full_store) (ctx bad_request)
  = ([], Panic "uuid: Parse(not-a-uuid): invalid UUID length").
Proof.
  exact (Receive_panics_on_invalid_endpoint_id world (worker full_store)
           (ctx bad_request) bad_request "invalid UUID length"
           eq_refl eq_refl).
Defined.

End OnSample.

(** ** Byte order and slices *)

Section Bytes.

Lemma land_255_range (z : Z) : (0 ≤ Z.land z 255 < 256)%Z.
Proof.
  change 255%Z with (Z.ones 8). rewrite Z.land_ones by lia.
  apply Z.mod_pos_bound. lia.
Qed.

Lemma byte_to_Z_of_Z (z : Z) : byte_to_Z (byte_of_Z z) = Z.land z 255.
Proof.
  pose proof (land_255_range z) as R.
  unfold byte_to_Z, byte_of_Z.
  destruct (Byte.of_N (Z.to_N (Z.land z 255))) as [b|] eqn:E.
  - rewrite (Byte.to_of_N _ E). apply Z2N.id. lia.
  - apply Byte.of_N_None_iff in E. lia.
Qed.

Lemma byte_to_Z_range (b : byte) : (0 ≤ byte_to_Z b < 256)%Z.
Proof.
  unfold byte_to_Z. pose proof (Byte.to_N_bounded b). lia.
Qed.

Lemma testbit_window (v k n : Z) :
  (0 ≤ k)%Z → (0 ≤ n)%Z →
  Z.testbit (Z.shiftl (Z.land (Z.shiftr v k) 255) k) n
  = (Z.testbit v n && ((k <=? n) && (n <? k + 8)))%Z.
Proof.
  intros Hk Hn. destruct (Z.leb_spec k n) as [L|L].
  - rewrite Z.shiftl_spec by lia. rewrite Z.land_spec.
    rewrite Z.shiftr_spec by lia. replace (n - k + k)%Z with n by lia.
    change 255%Z with (Z.ones 8). rewrite Z.testbit_ones_nonneg by lia.
    f_equal. cbn [andb].
    destruct (Z.ltb_spec (n - k) 8), (Z.ltb_spec n (k + 8)); lia || reflexivity.
  - rewrite Z.shiftl_spec_low by lia. cbn [andb]. now rewrite andb_false_r.
Qed.

Lemma Uint32_PutUint32 (v : Z) :
  (0 ≤ v < 2 ^ 32)%Z → Uint32 (PutUint32 v) = Ret v.
Proof.
  intros Hv. unfold PutUint32, Uint32. f_equal.
  rewrite !byte_to_Z_of_Z.
  apply Z.bits_inj'. intros n Hn.
  rewrite !Z.lor_spec.
  rewrite !testbit_window by lia.
  replace (Z.land v 255)
    with (Z.shiftl (Z.land (Z.shiftr v 0) 255) 0)
    by (now rewrite Z.shiftl_0_r, Z.shiftr_0_r).
  rewrite testbit_window by lia.
  destruct (Z.ltb_spec n 32) as [L|L].
  - destruct (Z.testbit v n); cbn [andb orb]; [|reflexivity].
    destruct (Z.leb_spec 0 n), (Z.ltb_spec n (0 + 8)),
             (Z.leb_spec 8 n), (Z.ltb_spec n (8 + 8)),
             (Z.leb_spec 16 n), (Z.ltb_spec n (16 + 8)),
             (Z.leb_spec 24 n), (Z.ltb_spec n (24 + 8));
      cbn [andb orb]; lia || reflexivity.
  - replace (Z.testbit v n) with false; [reflexivity|].
    symmetry. rewrite <- (Z.mod_small v (2 ^ 32)) by lia.
    apply Z.mod_pow2_bits_high. lia.
Qed.

Lemma Uint32_of_four (b : list byte) :
  length b = 4%nat → ∃ v, Uint32 b = Ret v ∧ (0 ≤ v)%Z.
Proof.
  intros H. destruct b as [|b0 [|b1 [|b2 [|b3 [|]]]]]; try discriminate H.
  eexists. split; [reflexivity|].
  pose proof (byte_to_Z_range b0). pose proof (byte_to_Z_range b1).
  pose proof (byte_to_Z_range b2). pose proof (byte_to_Z_range b3).
  repeat (apply Z.lor_nonneg; split); try apply Z.shiftl_nonneg; lia.
Qed.

Lemma slice_in_range {A} (s : list A) (lo hi : Z) :
  (0 ≤ lo ≤ hi)%Z → (hi ≤ Z.of_nat (length s))%Z →
  slice s lo hi = Ret (take (Z.to_nat (hi - lo)) (drop (Z.to_nat lo) s)).
Proof.
  intros H1 H2. unfold slice.
  destruct (Z.leb_spec 0 lo), (Z.leb_spec lo hi),
           (Z.leb_spec hi (Z.of_nat (length s))); cbn [andb]; lia || reflexivity.
Qed.

Lemma slice_middle {A} (pre mid post : list A) :
  slice (pre ++ mid ++ post)%list (Z.of_nat (length pre))
    (Z.of_nat (length pre) + Z.of_nat (length mid))
  = Ret mid.
Proof.
  rewrite slice_in_range by (rewrite ?length_app; lia).
  f_equal. rewrite Nat2Z.id.
  replace (Z.to_nat _) with (length mid) by lia.
  rewrite drop_app_length. apply take_app_length.
Qed.

End Bytes.

(** ** The response on the guest's standard output *)

Section GuestStdout.
Import Shared.

Lemma slice_decomp {A} (s pre mid post : list A) (lo hi : Z) :
  s = (pre ++ mid ++ post)%list →
  lo = Z.of_nat (length pre) →
  hi = (lo + Z.of_nat (length mid))%Z →
  slice s lo hi = Ret mid.
Proof. intros -> -> ->. apply slice_middle. Qed.

(** What [ParseStdout] does with the bytes it could read, case by case. *)
Lemma ParseStdout_cases (b : list byte) :
  let n := length b in
  ((n < 8)%nat ∧
   ParseStdout (Ok b)
   = Ret ({| logs := []; resp := []; status := 0;
             err := Some "mallformed HTTP response missing last 8 bytes" |},
          []))
  ∨ ((8 ≤ n)%nat ∧ ∃ st rl,
       Uint32 (take 4 (drop (n - 8) b)) = Ret st
       ∧ Uint32 (drop (n - 4) b) = Ret rl
       ∧ (0 ≤ rl)%Z
       ∧ (((Z.of_nat n - 8 < rl)%Z ∧
           ParseStdout (Ok b)
           = Ret ({| logs := []; resp := []; status := st;
                     err := Some "response length exceeds available data" |},
                  [Itoa st]))
          ∨ ((rl ≤ Z.of_nat n - 8)%Z ∧
             ParseStdout (Ok b)
             = Ret ({| logs := take (n - 8 - Z.to_nat rl) b;
                       resp := take (Z.to_nat rl)
                                 (drop (n - 8 - Z.to_nat rl) b);
                       status := st; err := None |},
                    [Itoa st])))).
Proof.
  intros n.
  destruct (Nat.lt_ge_cases n 8) as [Hs|Hs].
  { left. split; [exact Hs|]. unfold ParseStdout, magicLen. fold n.
    destruct (Z.ltb_spec (Z.of_nat n) 8); [reflexivity|lia]. }
  right. split; [exact Hs|].
  destruct (Uint32_of_four (take 4 (drop (n - 8) b))) as (st & Hst & _).
  { rewrite length_take, length_drop. fold n. lia. }
  destruct (Uint32_of_four (drop (n - 4) b)) as (rl & Hrl & Hrl0).
  { rewrite length_drop. fold n. lia. }
  exists st, rl. split; [exact Hst|]. split; [exact Hrl|]. split; [exact Hrl0|].
  unfold ParseStdout, magicLen, mbind, go_mbind. fold n.
  destruct (Z.ltb_spec (Z.of_nat n) 8); [lia|].
  rewrite (slice_in_range b (Z.of_nat n - 8) (Z.of_nat n - 8 + 4))
    by (fold n; lia).
  cbn [go_bind].
  replace (Z.to_nat (Z.of_nat n - 8 + 4 - (Z.of_nat n - 8))) with 4%nat by lia.
  replace (Z.to_nat (Z.of_nat n - 8)) with (n - 8)%nat by lia.
  rewrite Hst. cbn [go_bind].
  rewrite (slice_in_range b (Z.of_nat n - 8 + 4) (Z.of_nat n))
    by (fold n; lia).
  cbn [go_bind].
  replace (Z.to_nat (Z.of_nat n - (Z.of_nat n - 8 + 4))) with 4%nat by lia.
  replace (Z.to_nat (Z.of_nat n - 8 + 4)) with (n - 4)%nat by lia.
  rewrite (take_ge (drop (n - 4) b)) by (rewrite length_drop; fold n; lia).
  rewrite Hrl. cbn [go_bind].
  destruct (Z.gtb_spec rl (Z.of_nat n - 8)) as [Hx|Hx];
    [left; split; [lia|reflexivity]|].
  right. split; [lia|].
  rewrite (slice_in_range b (Z.of_nat n - 8 - rl)
             (Z.of_nat n - 8 - rl + rl)) by (fold n; lia).
  cbn [go_bind].
  rewrite (slice_in_range b 0 (Z.of_nat n - 8 - rl)) by (fold n; lia).
  cbn [go_bind].
  replace (Z.to_nat (Z.of_nat n - 8 - rl + rl - (Z.of_nat n - 8 - rl)))
    with (Z.to_nat rl) by lia.
  replace (Z.to_nat (Z.of_nat n - 8 - rl - 0)) with (n - 8 - Z.to_nat rl)%nat
    by lia.
  replace (Z.to_nat (Z.of_nat n - 8 - rl)) with (n - 8 - Z.to_nat rl)%nat
    by lia.
  rewrite drop_0. reflexivity.
Qed.

(** X1. [ParseStdout] reads back what a guest wrote in the layout
    logs, response, status and response length as two little-endian
    32-bit words: it returns the logs, the response and the status with no
    error, and prints the status. *)
Theorem ParseStdout_round_trip (lg body : list byte) (st : Z) :
  (0 ≤ st < 2 ^ 32)%Z →
  (Z.of_nat (length body) < 2 ^ 32)%Z →
  ParseStdout
    (Ok (lg ++ body ++ PutUint32 st
           ++ PutUint32 (Z.of_nat (length body)))%list)
  = Ret ({| logs := lg; resp := body; status := st; err := None |},
         [Itoa st]).
Proof.
  intros Hst Hlen.
  set (N := Z.of_nat (length body)).
  remember (lg ++ body ++ PutUint32 st ++ PutUint32 N)%list as b eqn:Hb.
  assert (Hn : Z.of_nat (length b)
               = (Z.of_nat (length lg) + Z.of_nat (length body) + 8)%Z).
  { subst b. rewrite !length_app. cbn [PutUint32 length]. lia. }
  unfold ParseStdout, magicLen, mbind, go_mbind.
  destruct (Z.ltb_spec (Z.of_nat (length b)) 8); [lia|].
  rewrite (slice_decomp b (lg ++ body) (PutUint32 st) (PutUint32 N));
    [|subst b; now rewrite <- app_assoc
     |rewrite length_app; lia|cbn [PutUint32 length]; lia].
  cbn [go_bind]. rewrite (Uint32_PutUint32 st Hst). cbn [go_bind].
  rewrite (slice_decomp b (lg ++ body ++ PutUint32 st) (PutUint32 N) []);
    [|subst b; now rewrite app_nil_r, <- !app_assoc
     |rewrite !length_app; cbn [PutUint32 length]; lia
     |cbn [PutUint32 length]; lia].
  cbn [go_bind]. rewrite (Uint32_PutUint32 N) by (unfold N; lia).
  cbn [go_bind].
  destruct (Z.gtb_spec N (Z.of_nat (length b) - 8)); [unfold N in *; lia|].
  rewrite (slice_decomp b lg body (PutUint32 st ++ PutUint32 N));
    [|exact Hb|unfold N; lia|unfold N; lia].
  cbn [go_bind].
  rewrite (slice_decomp b [] lg (body ++ PutUint32 st ++ PutUint32 N));
    [|exact Hb|reflexivity|unfold N; cbn [length]; lia].
  reflexivity.
Qed.

(** X2. [ParseStdout] never panics, whatever the reader gives; it
    returns without an error exactly when at least eight bytes were read
    and the length in the last four bytes does not exceed what comes
    before the eight. *)
Theorem ParseStdout_error_cases (stdout : result (list byte)) :
  ∃ p out, ParseStdout stdout = Ret (p, out)
    ∧ (err p = None ↔
       ∃ b rl, stdout = Ok b ∧ (8 ≤ length b)%nat
         ∧ Uint32 (drop (length b - 4) b) = Ret rl
         ∧ (rl ≤ Z.of_nat (length b) - 8)%Z).
Proof.
  destruct stdout as [b|e].
  - destruct (ParseStdout_cases b)
      as [[Hs ->]|(Hs & st & rl & Hst & Hrl & Hrl0 & [[Hx ->]|[Hx ->]])].
    + do 2 eexists. split; [reflexivity|]. cbn [err]. split; [discriminate|].
      intros (b' & rl & Hb & Hlen & _). inversion Hb; subst. lia.
    + do 2 eexists. split; [reflexivity|]. cbn [err]. split; [discriminate|].
      intros (b' & rl' & Hb & _ & Hrl' & Hle). inversion Hb; subst b'.
      rewrite Hrl in Hrl'. inversion Hrl'; subst. lia.
    + do 2 eexists. split; [reflexivity|]. cbn [err]. split; [|reflexivity].
      intros _. exists b, rl. auto.
  - do 2 eexists. split; [reflexivity|]. cbn [err]. split; [discriminate|].
    intros (b & rl & Hb & _). discriminate Hb.
Qed.

(** X3. When [ParseStdout] returns without an error, no byte is lost:
    the input is the logs, then the response, then the eight last bytes;
    the first four of these decode to the status and the last four to the
    length of the response. *)
Theorem ParseStdout_success_splits_input (b : list byte) (p : Parsed)
    (out : list string) :
  ParseStdout (Ok b) = Ret (p, out) →
  err p = None →
  b = (logs p ++ resp p ++ drop (length b - 8) b)%list
  ∧ Uint32 (take 4 (drop (length b - 8) b)) = Ret (status p)
  ∧ Uint32 (drop (length b - 4) b) = Ret (Z.of_nat (length (resp p)))
  ∧ out = [Itoa (status p)].
Proof.
  intros HP He.
  destruct (ParseStdout_cases b)
    as [[Hs E]|(Hs & st & rl & Hst & Hrl & Hrl0 & [[Hx E]|[Hx E]])];
    rewrite E in HP; inversion HP; subst p out; try discriminate He.
  cbn [logs resp status].
  set (k := (length b - 8 - Z.to_nat rl)%nat).
  assert (Hk : (length b - 8 = k + Z.to_nat rl)%nat) by (unfold k; lia).
  split; [|split; [exact Hst|split; [|reflexivity]]].
  - rewrite Hk, <- drop_drop.
    rewrite (take_drop (Z.to_nat rl) (drop k b)).
    now rewrite take_drop.
  - rewrite length_take, length_drop. rewrite Hrl. f_equal. lia.
Qed.

Lemma ParseStdout_round_trip_witness :
  ParseStdout
    (Ok (list_byte_of_string "log" ++ list_byte_of_string "OK"
           ++ PutUint32 200 ++ PutUint32 2)%list)
  = Ret ({| logs := list_byte_of_string "log";
            resp := list_byte_of_string "OK";
            status := 200; err := None |}, ["200"]).
Proof.
  exact (ParseStdout_round_trip (list_byte_of_string "log")
           (list_byte_of_string "OK") 200
           ltac:(lia) ltac:(cbn; lia)).
Defined.

Lemma ParseStdout_success_splits_input_witness :
  (list_byte_of_string "logOK" ++ PutUint32 200 ++ PutUint32 2)%list
  = (list_byte_of_string "log" ++ list_byte_of_string "OK"
       ++ PutUint32 200 ++ PutUint32 2)%list.
Proof.
  exact (proj1 (ParseStdout_success_splits_input
                  (list_byte_of_string "logOK" ++ PutUint32 200
                     ++ PutUint32 2)%list
                  {| logs := list_byte_of_string "log";
                     resp := list_byte_of_string "OK";
                     status := 200; err := None |}
                  ["200"] eq_refl eq_refl)).
Defined.

End GuestStdout.

(** ** The hexadecimal trailer of a runtime response *)

Section RuntimeResponse.
Import Shared.

Lemma string_app_cons (c : ascii) (a b : string) :
  String c a ++ b = String c (a ++ b).
Proof. reflexivity. Qed.

Lemma string_length_app (a b : string) :
  String.length (a ++ b) = (String.length a + String.length b)%nat.
Proof.
  induction a as [|c a IH]; [reflexivity|].
  rewrite string_app_cons. cbn [String.length Nat.add]. f_equal. exact IH.
Qed.

Lemma substring_skip (a s : string) (m : nat) :
  substring (String.length a) m (a ++ s) = substring 0 m s.
Proof. induction a as [|c a IH]; [reflexivity|exact IH]. Qed.

Lemma substring_prefix (b c : string) :
  substring 0 (String.length b) (b ++ c) = b.
Proof.
  induction b as [|x b IH]; [now destruct c|].
  rewrite string_app_cons. cbn [String.length substring]. f_equal. exact IH.
Qed.

Lemma substring_all (s : string) : substring 0 (String.length s) s = s.
Proof. induction s as [|c s IH]; cbn; [reflexivity|now rewrite IH]. Qed.

Lemma substring_split (s : string) (n : nat) :
  (n ≤ String.length s)%nat →
  s = substring 0 n s ++ substring n (String.length s - n) s.
Proof.
  revert n. induction s as [|c s IH]; intros n Hn.
  - cbn in Hn. now replace n with 0%nat by lia.
  - destruct n as [|n].
    + change (substring 0 0 (String c s)) with EmptyString.
      rewrite Nat.sub_0_r. now rewrite substring_all.
    + cbn in Hn |- *. rewrite string_app_cons. f_equal. apply IH. lia.
Qed.

Lemma substring_three (s : string) (lo hi : nat) :
  (lo ≤ hi)%nat → (hi ≤ String.length s)%nat →
  s = substring 0 lo s ++ substring lo (hi - lo) s
        ++ substring hi (String.length s - hi) s.
Proof.
  revert lo hi. induction s as [|c s IH]; intros lo hi H1 H2.
  - cbn in H2. replace hi with 0%nat by lia. now replace lo with 0%nat by lia.
  - destruct lo as [|lo].
    + change (substring 0 0 (String c s)) with EmptyString.
      rewrite Nat.sub_0_r. apply (substring_split (String c s) hi H2).
    + destruct hi as [|hi]; [lia|].
      cbn in H2 |- *. rewrite string_app_cons. f_equal. apply IH; lia.
Qed.

Lemma substring_length (s : string) (n m : nat) :
  (n + m ≤ String.length s)%nat → String.length (substring n m s) = m.
Proof.
  revert n m. induction s as [|c s IH]; intros n m H.
  - cbn in H. replace n with 0%nat by lia. now replace m with 0%nat by lia.
  - destruct n as [|n].
    + destruct m as [|m]; [reflexivity|]. cbn in H |- *. f_equal.
      apply IH. lia.
    + cbn in H |- *. apply IH. lia.
Qed.

Lemma str_slice_in_range (s : string) (lo hi : Z) :
  (0 ≤ lo ≤ hi)%Z → (hi ≤ Z.of_nat (String.length s))%Z →
  str_slice s lo hi
  = Ret (substring (Z.to_nat lo) (Z.to_nat (hi - lo)) s).
Proof.
  intros H1 H2. unfold str_slice.
  destruct (Z.leb_spec 0 lo), (Z.leb_spec lo hi),
           (Z.leb_spec hi (Z.of_nat (String.length s)));
    cbn [andb]; lia || reflexivity.
Qed.

Lemma str_slice_negative (s : string) (lo hi : Z) :
  (lo < 0)%Z → str_slice s lo hi = Panic "slice bounds out of range".
Proof.
  intros H. unfold str_slice. destruct (Z.leb_spec 0 lo); [lia|reflexivity].
Qed.

Lemma hex_byte (x : byte) :
  fromHexChar (hex_digit (Z.shiftr (byte_to_Z x) 4))
  = Some (Z.shiftr (byte_to_Z x) 4)
  ∧ fromHexChar (hex_digit (Z.land (byte_to_Z x) 15))
    = Some (Z.land (byte_to_Z x) 15)
  ∧ byte_of_Z (Z.lor (Z.shiftl (Z.shiftr (byte_to_Z x) 4) 4)
                 (Z.land (byte_to_Z x) 15)) = x.
Proof. destruct x; vm_compute; auto. Qed.

Lemma hex_DecodeString_EncodeToString (b : list byte) :
  hex_DecodeString (hex_EncodeToString b) = (b, None).
Proof.
  induction b as [|x b IH]; [reflexivity|].
  destruct (hex_byte x) as (H1 & H2 & H3).
  cbn [hex_EncodeToString hex_DecodeString].
  rewrite H1, H2, IH. cbn [fst snd]. now rewrite H3.
Qed.

Lemma hex_EncodeToString_length (b : list byte) :
  String.length (hex_EncodeToString b) = (2 * length b)%nat.
Proof. induction b as [|x b IH]; cbn; [reflexivity|rewrite IH; lia]. Qed.

Lemma hex_DecodeString_length (s : string) :
  (hex_DecodeString s).2 = None →
  (2 * length (hex_DecodeString s).1)%nat = String.length s.
Proof.
  assert (G : ∀ n s, (String.length s ≤ n)%nat →
              (hex_DecodeString s).2 = None →
              (2 * length (hex_DecodeString s).1)%nat = String.length s).
  { induction n as [|n IH]; intros [|p [|q t]] Hn; cbn in Hn; try lia;
      try (intros _; reflexivity).
    - cbn. destruct (fromHexChar p); discriminate.
    - cbn [hex_DecodeString].
      destruct (fromHexChar p); [|discriminate].
      destruct (fromHexChar q); [|discriminate].
      cbn [fst snd String.length length]. intros H.
      rewrite <- (IH t) by (lia || exact H). lia. }
  apply (G (String.length s)). lia.
Qed.

Lemma string_app_assoc (a b c : string) : (a ++ b) ++ c = a ++ b ++ c.
Proof.
  induction a as [|x a IH]; [reflexivity|].
  rewrite !string_app_cons. f_equal. exact IH.
Qed.

(** [ParseRuntimeHTTPResponse] on an input of sixteen bytes or more. *)
Lemma ParseRuntimeHTTPResponse_long (spare : list byte) (input : string) :
  (16 ≤ String.length input)%nat →
  ParseRuntimeHTTPResponse spare input
  = (let n := Z.of_nat (String.length input) in
     let d := hex_DecodeString
                (substring (String.length input - 16) 16 input) in
     let array := (d.1 ++ spare)%list in
     b03 ← slice array 0 4;
     st ← Uint32 b03;
     b47 ← slice array 4 8;
     respLen ← Uint32 b47;
     rs ← str_slice input (n - 16 - respLen) (n - 16);
     Ret (rs, st, match d.2 with
                  | Some _ => Some errInvalidHTTPResponse
                  | None => None
                  end)).
Proof.
  intros H. unfold ParseRuntimeHTTPResponse.
  destruct (Z.ltb_spec (Z.of_nat (String.length input)) 16); [lia|].
  rewrite str_slice_in_range by lia.
  replace (Z.to_nat (Z.of_nat (String.length input) - 16))
    with (String.length input - 16)%nat by lia.
  replace (Z.to_nat (Z.of_nat (String.length input)
                     - (Z.of_nat (String.length input) - 16)))
    with 16%nat by lia.
  reflexivity.
Qed.

(** The trailer of a well-formed response, and what decoding it gives. *)
Lemma trailer_decodes (st rl : Z) (spare : list byte) :
  let t := hex_EncodeToString (PutUint32 st ++ PutUint32 rl) in
  let array := ((hex_DecodeString t).1 ++ spare)%list in
  String.length t = 16%nat
  ∧ (hex_DecodeString t).2 = None
  ∧ slice array 0 4 = Ret (PutUint32 st)
  ∧ slice array 4 8 = Ret (PutUint32 rl).
Proof.
  intros t array. subst t array.
  rewrite hex_DecodeString_EncodeToString. cbn [fst snd].
  split; [now rewrite hex_EncodeToString_length|]. split; [reflexivity|].
  split.
  - now rewrite (slice_decomp _ [] (PutUint32 st) (PutUint32 rl ++ spare));
      [|rewrite <- app_assoc|reflexivity|reflexivity].
  - now rewrite (slice_decomp _ (PutUint32 st) (PutUint32 rl) spare);
      [|rewrite <- app_assoc|reflexivity|reflexivity].
Qed.

(** X4. [ParseRuntimeHTTPResponse] reads back a response followed by the
    sixteen hexadecimal digits of its status and length: it returns the
    response and the status with no error, whatever comes before. *)
Theorem ParseRuntimeHTTPResponse_round_trip
    (spare : list byte) (pre body : string) (st : Z) :
  (0 ≤ st < 2 ^ 32)%Z →
  (Z.of_nat (String.length body) < 2 ^ 32)%Z →
  ParseRuntimeHTTPResponse spare
    (pre ++ body
       ++ hex_EncodeToString
            (PutUint32 st ++ PutUint32 (Z.of_nat (String.length body))))
  = Ret (body, st, None).
Proof.
  intros Hst Hlen.
  set (N := Z.of_nat (String.length body)).
  destruct (trailer_decodes st N spare) as (HT & Hd & H03 & H47).
  set (T := hex_EncodeToString (PutUint32 st ++ PutUint32 N)) in *.
  set (input := pre ++ body ++ T).
  assert (Hn : String.length input
               = (String.length pre + String.length body + 16)%nat).
  { unfold input. rewrite !string_length_app, HT. lia. }
  assert (Htail : substring (String.length input - 16) 16 input = T).
  { replace (String.length input - 16)%nat
      with (String.length (pre ++ body))
      by (rewrite string_length_app; lia).
    unfold input. rewrite <- string_app_assoc, substring_skip.
    rewrite <- HT. apply substring_all. }
  rewrite ParseRuntimeHTTPResponse_long by lia.
  cbv zeta. rewrite Htail, Hd, H03.
  unfold mbind, go_mbind. cbn [go_bind].
  rewrite (Uint32_PutUint32 st Hst). cbn [go_bind].
  rewrite H47. cbn [go_bind].
  rewrite (Uint32_PutUint32 N) by (unfold N; lia). cbn [go_bind].
  rewrite str_slice_in_range by (unfold N; lia).
  replace (Z.to_nat (Z.of_nat (String.length input) - 16 - N))
    with (String.length pre) by (unfold N; lia).
  replace (Z.to_nat (Z.of_nat (String.length input) - 16
                     - (Z.of_nat (String.length input) - 16 - N)))
    with (String.length body) by (unfold N; lia).
  unfold input. rewrite substring_skip, substring_prefix.
  reflexivity.
Qed.

(** X5. When the length in the trailer is larger than the number of
    bytes before the trailer, [ParseRuntimeHTTPResponse] panics on the
    slice of the input; it has no check of the length. *)
Theorem ParseRuntimeHTTPResponse_panics_on_long_length
    (spare : list byte) (pre : string) (st rl : Z) :
  (0 ≤ st < 2 ^ 32)%Z →
  (Z.of_nat (String.length pre) < rl < 2 ^ 32)%Z →
  ParseRuntimeHTTPResponse spare
    (pre ++ hex_EncodeToString (PutUint32 st ++ PutUint32 rl))
  = Panic "slice bounds out of range".
Proof.
  intros Hst Hrl.
  destruct (trailer_decodes st rl spare) as (HT & Hd & H03 & H47).
  set (T := hex_EncodeToString (PutUint32 st ++ PutUint32 rl)) in *.
  set (input := pre ++ T).
  assert (Hn : String.length input = (String.length pre + 16)%nat).
  { unfold input. rewrite string_length_app, HT. lia. }
  assert (Htail : substring (String.length input - 16) 16 input = T).
  { replace (String.length input - 16)%nat with (String.length pre) by lia.
    unfold input. rewrite substring_skip.
    rewrite <- HT. apply substring_all. }
  rewrite ParseRuntimeHTTPResponse_long by lia.
  cbv zeta. rewrite Htail, Hd, H03.
  unfold mbind, go_mbind. cbn [go_bind].
  rewrite (Uint32_PutUint32 st Hst). cbn [go_bind].
  rewrite H47. cbn [go_bind].
  rewrite (Uint32_PutUint32 rl) by lia. cbn [go_bind].
  rewrite str_slice_negative by lia. reflexivity.
Qed.

(** X6. When [ParseRuntimeHTTPResponse] returns without an error, the
    input is some prefix, then the response returned, then sixteen
    hexadecimal digits; these decode to eight bytes, the first four the
    status returned and the last four the length of the response. *)
Theorem ParseRuntimeHTTPResponse_success
    (spare : list byte) (input rs : string) (st : Z) :
  ParseRuntimeHTTPResponse spare input = Ret (rs, st, None) →
  ∃ pre trailer bytes,
    input = pre ++ rs ++ trailer
    ∧ String.length trailer = 16%nat
    ∧ hex_DecodeString trailer = (bytes, None)
    ∧ Uint32 (take 4 bytes) = Ret st
    ∧ Uint32 (drop 4 bytes) = Ret (Z.of_nat (String.length rs)).
Proof.
  intros HP.
  destruct (Nat.lt_ge_cases (String.length input) 16) as [Hs|Hs].
  { unfold ParseRuntimeHTTPResponse in HP.
    destruct (Z.ltb_spec (Z.of_nat (String.length input)) 16);
      [discriminate HP|lia]. }
  rewrite ParseRuntimeHTTPResponse_long in HP by exact Hs. cbv zeta in HP.
  set (n := String.length input) in *.
  set (trailer := substring (n - 16) 16 input) in *.
  assert (HT : String.length trailer = 16%nat).
  { apply substring_length. fold n. lia. }
  destruct (hex_DecodeString trailer) as [bytes e] eqn:Hd.
  cbn [fst snd] in HP. unfold mbind, go_mbind in HP.
  destruct (slice (bytes ++ spare) 0 4) as [b03|] eqn:E03;
    cbn [go_bind] in HP; [|discriminate HP].
  destruct (Uint32 b03) as [st'|] eqn:U03; cbn [go_bind] in HP;
    [|discriminate HP].
  destruct (slice (bytes ++ spare) 4 8) as [b47|] eqn:E47;
    cbn [go_bind] in HP; [|discriminate HP].
  destruct (Uint32 b47) as [rl|] eqn:U47; cbn [go_bind] in HP;
    [|discriminate HP].
  destruct (str_slice input (Z.of_nat n - 16 - rl) (Z.of_nat n - 16))
    as [rs'|] eqn:ES; cbn [go_bind] in HP; [|discriminate HP].
  destruct e as [e|]; [discriminate HP|].
  inversion HP; subst rs' st'. clear HP.
  pose proof (hex_DecodeString_length trailer) as HL.
  rewrite Hd in HL. cbn [fst snd] in HL. specialize (HL eq_refl).
  rewrite HT in HL.
  (* the two words *)
  unfold slice in E03, E47.
  destruct ((0 <=? 0)%Z && (0 <=? 4)%Z
            && (4 <=? Z.of_nat (length (bytes ++ spare)))%Z);
    [|discriminate E03].
  destruct ((0 <=? 4)%Z && (4 <=? 8)%Z
            && (8 <=? Z.of_nat (length (bytes ++ spare)))%Z);
    [|discriminate E47].
  inversion E03; subst b03. inversion E47; subst b47. clear E03 E47.
  change (Z.to_nat (4 - 0)) with 4%nat in U03.
  change (Z.to_nat 0) with 0%nat in U03.
  change (Z.to_nat (8 - 4)) with 4%nat in U47.
  change (Z.to_nat 4) with 4%nat in U47.
  rewrite drop_0, take_app_le in U03 by lia.
  rewrite drop_app_le, take_app_le in U47 by (rewrite ?length_drop; lia).
  rewrite take_ge in U47 by (rewrite length_drop; lia).
  (* the response *)
  unfold str_slice in ES. fold n in ES.
  destruct (Z.leb_spec 0 (Z.of_nat n - 16 - rl)) as [L1|]; [|discriminate ES].
  destruct (Z.leb_spec (Z.of_nat n - 16 - rl) (Z.of_nat n - 16)) as [L2|];
    [|discriminate ES].
  destruct (Z.leb_spec (Z.of_nat n - 16) (Z.of_nat n)); [|discriminate ES].
  cbn [andb] in ES. inversion ES as [Hrs]. clear ES Hrs.
  set (lo := Z.to_nat (Z.of_nat n - 16 - rl)) in *.
  replace (Z.to_nat (Z.of_nat n - 16 - (Z.of_nat n - 16 - rl)))
    with (n - 16 - lo)%nat by lia.
  exists (substring 0 lo input), trailer, bytes.
  split.
  { unfold trailer.
    pose proof (substring_three input lo (n - 16)
                  ltac:(lia) ltac:(fold n; lia)) as E.
    fold n in E. replace (n - (n - 16))%nat with 16%nat in E by lia.
    exact E. }
  split; [exact HT|]. split; [exact Hd|]. split; [exact U03|].
  rewrite U47. f_equal.
  rewrite substring_length by (fold n; lia). lia.
Qed.

Lemma ParseRuntimeHTTPResponse_round_trip_witness :
  ParseRuntimeHTTPResponse [] "logsOKc800000002000000"
  = Ret ("OK", 200%Z, None).
Proof.
  exact (ParseRuntimeHTTPResponse_round_trip [] "logs" "OK" 200
           ltac:(lia) ltac:(cbn; lia)).
Defined.

Lemma ParseRuntimeHTTPResponse_panics_on_long_length_witness :
  ParseRuntimeHTTPResponse [] "OKc800000003000000"
  = Panic "slice bounds out of range".
Proof.
  exact (ParseRuntimeHTTPResponse_panics_on_long_length [] "OK" 200 3
           ltac:(lia) ltac:(cbn; lia)).
Defined.

Lemma ParseRuntimeHTTPResponse_success_witness :
  ∃ pre trailer bytes,
    "logsOKc800000002000000" = pre ++ "OK" ++ trailer
    ∧ String.length trailer = 16%nat
    ∧ hex_DecodeString trailer = (bytes, None)
    ∧ Uint32 (take 4 bytes) = Ret 200%Z
    ∧ Uint32 (drop 4 bytes) = Ret (Z.of_nat (String.length "OK")).
Proof.
  exact (ParseRuntimeHTTPResponse_success [] "logsOKc800000002000000"
           "OK" 200 eq_refl).
Defined.

End RuntimeResponse.

(** ** Paths with fewer or other segments *)

Section Paths.
Import Shared.

Lemma Split_count (s : string) (sep : ascii) :
  length (Split s sep) = S (count_byte sep s).
Proof.
  induction s as [|c s IH]; [reflexivity|].
  cbn [Split count_byte]. destruct (Ascii.eqb c sep).
  - cbn [length]. now rewrite IH.
  - destruct (Split s sep) as [|part parts]; [discriminate IH|].
    cbn [length] in *. lia.
Qed.

Lemma no_byte_count (c : ascii) (s : string) :
  no_byte c s = true ↔ count_byte c s = 0%nat.
Proof.
  induction s as [|a s IH]; [easy|].
  cbn [no_byte count_byte]. destruct (Ascii.eqb a c); cbn; [easy|exact IH].
Qed.

Lemma Split_no_sep (s : string) (sep : ascii) :
  no_byte sep s = true → Split s sep = [s].
Proof.
  induction s as [|c s IH]; [reflexivity|].
  cbn [no_byte Split]. intros H. apply andb_prop in H as [Hc Hs].
  apply negb_true_iff in Hc. now rewrite Hc, (IH Hs).
Qed.

Lemma trimmed_path_without_slash_panics (url : URL) :
  no_byte "/" (TrimPrefix (Path url) "/") = true →
  trimmedEndpointFromURL url = Panic "slice bounds out of range".
Proof.
  intros H. apply no_byte_count in H.
  unfold trimmedEndpointFromURL, slice_from.
  pose proof (Split_count (TrimPrefix (Path url) "/") "/") as L.
  destruct (length (Split (TrimPrefix (Path url) "/") "/") =? 0)%nat eqn:E0;
    [apply Nat.eqb_eq in E0; lia|].
  destruct (2 <=? length (Split (TrimPrefix (Path url) "/") "/"))%nat eqn:E2;
    [apply Nat.leb_le in E2; lia|reflexivity].
Qed.

(** X7. [trimmedEndpointFromURL] panics exactly when the path, with its
    leading slash trimmed, holds no further slash. *)
Theorem trimmedEndpointFromURL_panics_iff (url : URL) :
  trimmedEndpointFromURL url = Panic "slice bounds out of range"
  ↔ no_byte "/" (TrimPrefix (Path url) "/") = true.
Proof.
  unfold trimmedEndpointFromURL, slice_from.
  pose proof (Split_count (TrimPrefix (Path url) "/") "/") as L.
  rewrite no_byte_count.
  destruct (length (Split (TrimPrefix (Path url) "/") "/") =? 0)%nat eqn:E0;
    [apply Nat.eqb_eq in E0; lia|].
  destruct (2 <=? length (Split (TrimPrefix (Path url) "/") "/"))%nat eqn:E2.
  - apply Nat.leb_le in E2. cbn [go_bind]. split; [discriminate|lia].
  - apply Nat.leb_gt in E2. cbn [go_bind]. split; [lia|reflexivity].
Qed.

(** X8. The two leading segments are dropped whatever they are: for a
    path [/a/b/rest] with no slash in [a] and [b], the result is [/rest];
    the first segment is not compared with [live]. *)
Theorem trimmedEndpointFromURL_drops_two_segments
    (url : URL) (a b rest : string) :
  Path url = "/" ++ a ++ "/" ++ b ++ "/" ++ rest →
  no_byte "/" a = true →
  no_byte "/" b = true →
  trimmedEndpointFromURL url = Ret ("/" ++ rest).
Proof.
  intros HP Ha Hb. unfold trimmedEndpointFromURL. rewrite HP.
  change (TrimPrefix ("/" ++ a ++ "/" ++ b ++ "/" ++ rest) "/")
    with (a ++ String "/" (b ++ String "/" rest)).
  rewrite (Split_segment a) by exact Ha.
  rewrite (Split_segment b) by exact Hb.
  cbn [length Nat.eqb]. unfold slice_from. cbn [length Nat.leb drop go_bind].
  now rewrite drop_0, Join_Split.
Qed.

Lemma trimmedEndpointFromURL_drops_two_segments_witness :
  trimmedEndpointFromURL {| Path := "/preview/abc/x/y" |} = Ret "/x/y".
Proof.
  exact (trimmedEndpointFromURL_drops_two_segments
           {| Path := "/preview/abc/x/y" |} "preview" "abc" "x/y"
           eq_refl eq_refl eq_refl).
Defined.

(** X9. [MakeProtoRequest] gives back the error of a body that cannot be
    read, whatever the path; with a readable body it panics when the
    trimmed path holds no slash, and otherwise returns a request with
    that body, the id given and the method of the inbound request. *)
Theorem MakeProtoRequest_outcomes (id : string) (r : Request) :
  match ReqBody r with
  | Err e => MakeProtoRequest id r = Ret (Err e)
  | Ok b =>
      if no_byte "/" (TrimPrefix (Path (Url r)) "/")
      then MakeProtoRequest id r = Panic "slice bounds out of range"
      else ∃ req, MakeProtoRequest id r = Ret (Ok req)
             ∧ pBody req = b ∧ pID req = id ∧ pMethod req = Method r
  end.
Proof.
  unfold MakeProtoRequest. destruct (ReqBody r) as [b|e]; [|reflexivity].
  destruct (no_byte "/" (TrimPrefix (Path (Url r)) "/")) eqn:E.
  - apply trimmed_path_without_slash_panics in E. now rewrite E.
  - destruct (trimmedEndpointFromURL (Url r)) as [u|w] eqn:T.
    + cbn [go_bind]. eexists. split; [reflexivity|]. auto.
    + exfalso. unfold trimmedEndpointFromURL, slice_from in T.
      pose proof (Split_count (TrimPrefix (Path (Url r)) "/") "/") as L.
      assert (C : count_byte "/" (TrimPrefix (Path (Url r)) "/") ≠ 0%nat).
      { intros C. apply no_byte_count in C. congruence. }
      destruct (length (Split (TrimPrefix (Path (Url r)) "/") "/") =? 0)%nat;
        [discriminate T|].
      destruct (2 <=? length (Split (TrimPrefix (Path (Url r)) "/") "/"))%nat
        eqn:E2; [discriminate T|].
      apply Nat.leb_gt in E2. lia.
Qed.

End Paths.

(** ** Environment flags of the command line client *)

Section EnvFlags.
Import Cli Actrs.

Lemma Split_pair (k v : string) :
  no_byte "=" k = true → no_byte "=" v = true →
  Split (k ++ "=" ++ v) "="%char = [k; v].
Proof.
  intros Hk Hv.
  change (k ++ "=" ++ v) with (k ++ String "="%char v).
  now rewrite (Split_segment k v "="%char Hk), (Split_no_sep v "="%char Hv).
Qed.

Lemma makeEnvMap_loop_app (m : gmap string string) (l1 l2 : list string) :
  makeEnvMap_loop m (l1 ++ l2)%list
  = match makeEnvMap_loop m l1 with
    | Returns m' => makeEnvMap_loop m' l2
    | Exits code e => Exits code e
    end.
Proof.
  revert m. induction l1 as [|value l1 IH]; intros m; [reflexivity|].
  cbn [app makeEnvMap_loop].
  destruct (Split value "=") as [|k [|v [|x parts]]]; try reflexivity.
  apply IH.
Qed.

Lemma makeEnvMap_loop_pairs (l : list (string * string))
    (m : gmap string string) :
  Forall (λ kv, no_byte "=" kv.1 = true ∧ no_byte "=" kv.2 = true) l →
  makeEnvMap_loop m ((λ kv, kv.1 ++ "=" ++ kv.2) <$> l)
  = Returns (foldl (λ acc kv, <[kv.1 := kv.2]> acc) m l).
Proof.
  intros H. revert m. induction H as [|[k v] l [Hk Hv] _ IH]; intros m;
    [reflexivity|].
  cbn [fmap list_fmap makeEnvMap_loop foldl fst snd].
  rewrite (Split_pair k v Hk Hv). apply IH.
Qed.

Lemma foldl_insert_list_to_map (l : list (string * string)) :
  foldl (λ acc kv, <[kv.1 := kv.2]> acc) (∅ : gmap string string) l
  = list_to_map (reverse l).
Proof.
  induction l as [|kv l IH] using rev_ind; [reflexivity|].
  rewrite foldl_app, reverse_app. cbn [foldl reverse app].
  rewrite IH. reflexivity.
Qed.

(** X10. The environment that [envMapToSlice] hands to the guest reads
    back with [makeEnvMap] as the map it came from, when no key and no
    value holds an equals sign. *)
Theorem makeEnvMap_envMapToSlice (env : gmap string string) :
  map_Forall
    (λ k v, no_byte "=" k = true ∧ no_byte "=" v = true) env →
  makeEnvMap (envMapToSlice env) = Returns env.
Proof.
  intros H. unfold makeEnvMap, envMapToSlice.
  rewrite makeEnvMap_loop_pairs.
  - f_equal. rewrite foldl_insert_list_to_map. symmetry.
    apply list_to_map_flip. symmetry. apply reverse_Permutation.
  - apply Forall_forall. intros [k v] Hin.
    apply elem_of_map_to_list in Hin. exact (H k v Hin).
Qed.

Lemma makeEnvMap_envMapToSlice_witness :
  makeEnvMap (envMapToSlice {[ "FOO" := "BAR"; "A" := "B" ]})
  = Returns {[ "FOO" := "BAR"; "A" := "B" ]}.
Proof.
  apply (makeEnvMap_envMapToSlice {[ "FOO" := "BAR"; "A" := "B" ]}).
  apply map_Forall_insert_2; [split; reflexivity|].
  apply map_Forall_insert_2; [split; reflexivity|].
  apply map_Forall_empty.
Defined.

Lemma makeEnvMap_loop_outcome (list : list string) (m : gmap string string) :
  if forallb (λ v, (count_byte "=" v =? 1)%nat) list
  then ∃ m', makeEnvMap_loop m list = Returns m'
  else makeEnvMap_loop m list = Exits 1 envError.
Proof.
  revert m. induction list as [|value list IH]; intros m; [now exists m|].
  cbn [forallb makeEnvMap_loop].
  pose proof (Split_count value "=") as L.
  destruct (count_byte "=" value =? 1)%nat eqn:E.
  - apply Nat.eqb_eq in E. rewrite E in L.
    destruct (Split value "=") as [|k [|v [|x parts]]]; try discriminate L.
    cbn [andb]. apply IH.
  - apply Nat.eqb_neq in E. cbn [andb].
    destruct (Split value "=") as [|k [|v [|x parts]]]; try reflexivity.
    cbn [length] in L. lia.
Qed.

(** X11. [makeEnvMap] returns a map when every value holds exactly one
    equals sign; otherwise it ends the process with status 1 and the
    message about the format of [--env]. *)
Theorem makeEnvMap_outcome (list : list string) :
  if forallb (λ v, (count_byte "=" v =? 1)%nat) list
  then ∃ m, makeEnvMap list = Returns m
  else makeEnvMap list
       = Exits 1
           "env arguments need to be in the format of --env foo=bar --env name=bob".
Proof. apply makeEnvMap_loop_outcome. Qed.

(** X12. One more [--env k=v] flag, added with [Set], sets [k] to [v] in
    the map [makeEnvMap] builds and leaves the other variables as the
    earlier flags gave them: a later flag overrides an earlier one. *)
Theorem makeEnvMap_Set (l : stringList) (m : gmap string string)
    (k v : string) :
  makeEnvMap l = Returns m →
  no_byte "=" k = true →
  no_byte "=" v = true →
  makeEnvMap (Set_ l (k ++ "=" ++ v)) = Returns (<[k := v]> m).
Proof.
  intros Hl Hk Hv. unfold makeEnvMap, Set_ in *.
  rewrite makeEnvMap_loop_app, Hl. cbn [makeEnvMap_loop].
  now rewrite (Split_pair k v Hk Hv).
Qed.

Lemma makeEnvMap_Set_witness :
  makeEnvMap (Set_ ["FOO=BAR"] "FOO=BAZ") = Returns (<["FOO" := "BAZ"]> {[ "FOO" := "BAR" ]}).
Proof.
  exact (makeEnvMap_Set ["FOO=BAR"] {[ "FOO" := "BAR" ]} "FOO" "BAZ"
           eq_refl eq_refl eq_refl).
Defined.

End EnvFlags.

(** ** The comparison of endpoint lists in the API tests *)

Section EndpointLists.
Import ApiTest.

Lemma found_in_spec (s2 : list Endpoint) (item1 : Endpoint) :
  found_in s2 item1 = true ↔ ID item1 ∈ ID <$> s2.
Proof.
  unfold found_in. rewrite existsb_exists, list_elem_of_fmap.
  split.
  - intros (item2 & Hin & Heq). apply bool_decide_eq_true in Heq.
    exists item2. split; [exact Heq|]. now apply list_elem_of_In.
  - intros (item2 & Heq & Hin). exists item2.
    split; [now apply list_elem_of_In|]. now apply bool_decide_eq_true.
Qed.

Lemma endpointsExists_spec (s1 s2 : list Endpoint) :
  endpointsExistsInEndpoints s1 s2 = true
  ↔ length s1 = length s2 ∧ ∀ id, id ∈ ID <$> s1 → id ∈ ID <$> s2.
Proof.
  unfold endpointsExistsInEndpoints.
  destruct (length s1 =? length s2)%nat eqn:E; cbn [negb].
  - apply Nat.eqb_eq in E. rewrite forallb_forall. split.
    + intros H. split; [exact E|]. intros id Hid.
      apply list_elem_of_fmap in Hid as (item1 & -> & Hin).
      apply found_in_spec, H. now apply list_elem_of_In.
    + intros [_ H] item1 Hin. apply found_in_spec, H.
      apply list_elem_of_fmap. exists item1. split; [reflexivity|].
      now apply list_elem_of_In.
  - apply Nat.eqb_neq in E. split; [discriminate|]. intros [H _]. lia.
Qed.

(** X13. [endpointsExistsInEndpoints] accepts any reordering: it is true
    for two lists that are permutations of each other. *)
Theorem endpointsExistsInEndpoints_permutation (s1 s2 : list Endpoint) :
  s1 ≡ₚ s2 → endpointsExistsInEndpoints s1 s2 = true.
Proof.
  intros H. apply endpointsExists_spec. split.
  - now apply Permutation_length.
  - intros id. now rewrite H.
Qed.

(** X14. When the endpoints of the first list have distinct ids, a true
    answer means that the two lists hold the same ids, each once. *)
Theorem endpointsExistsInEndpoints_same_ids (s1 s2 : list Endpoint) :
  NoDup (ID <$> s1) →
  endpointsExistsInEndpoints s1 s2 = true →
  ID <$> s1 ≡ₚ ID <$> s2.
Proof.
  intros Hnd H. apply endpointsExists_spec in H as [Hlen Hsub].
  apply NoDup_Permutation_bis.
  - now apply NoDup_ListNoDup.
  - rewrite !length_fmap. lia.
  - intros id Hin. apply list_elem_of_In, Hsub. now apply list_elem_of_In.
Qed.

End EndpointLists.

(** ** More on the runtime worker *)

Section RuntimeWorkerMore.
Import Actrs Actrs.RequestModule.

(** X15. [envMapToSlice] gives the guest one string per variable of the
    map and nothing else: its length is the size of the map, and its
    elements are the strings [k=v] of the entries of the map. *)
Theorem envMapToSlice_entries (env : gmap string string) :
  length (envMapToSlice env) = size env
  ∧ ∀ s, s ∈ envMapToSlice env
         ↔ ∃ k v, env !! k = Some v ∧ s = k ++ "=" ++ v.
Proof.
  unfold envMapToSlice. split.
  - now rewrite length_fmap, length_map_to_list.
  - intros s. rewrite list_elem_of_fmap. split.
    + intros ([k v] & -> & Hin). apply elem_of_map_to_list in Hin.
      now exists k, v.
    + intros (k & v & Hkv & ->). exists (k, v).
      split; [reflexivity|]. now apply elem_of_map_to_list.
Qed.

(** X16. A worker made by [NewRuntime] that gets [Started] and then a
    request measures from the start: [Started] causes no effect, and the
    metric of the request has the clock reading at [Started] as start
    time and the time elapsed since as duration. *)
Theorem Started_then_request_metric
    (W0 W1 : World) (st : Store) (ms : MetricStore) (mc : ModCacher)
    (c0 c : Context) (msg : HTTPRequest.t) (id : UUID)
    (endpoint : Endpoint.t) (deploy : Deploy.t) (b : list byte) :
  Message_ c0 = Started →
  Message_ c = HTTPRequestMsg msg →
  uuid_Parse W1 (HTTPRequest.EndpointID msg) = Ok id →
  GetEndpoint st id = Ok endpoint →
  GetDeploy st (Endpoint.ActiveDeployID endpoint) = Ok deploy →
  prot_Marshal W1 msg = Ok b →
  ∃ r, Receive W0 (NewRuntime st ms mc) c0 = ([], Ret r)
    ∧ List.filter is_Metric (trace (Receive W1 r c))
      = [ CreateRuntimeMetric
            {| RuntimeMetric.ID := uuid_New W1;
               RuntimeMetric.StartTime := time_Now W0;
               RuntimeMetric.Duration := (time_Now W1 - time_Now W0)%Z;
               RuntimeMetric.DeployID := Deploy.ID deploy;
               RuntimeMetric.EndpointID := Deploy.EndpointID deploy;
               RuntimeMetric.RequestURL := HTTPRequest.URL msg |} ].
Proof.
  intros Hc0 Hc HP HE HD HM.
  eexists. split; [unfold Receive; rewrite Hc0; reflexivity|].
  cbn [NewRuntime store metricStore cache].
  match goal with |- context [Receive W1 ?r c] => set (r1 := r) end.
  destruct (Receive_HTTPRequest W1 r1 c msg Hc) as [-> _].
  destruct (ReceiveHTTPRequest_resolved W1 r1 c msg id endpoint deploy b
              HP HE HD HM) as (te & h & m & _ & Hte & -> & ->).
  unfold trace. cbn [fst].
  rewrite resolved_trace_filter;
    [reflexivity | exact Warn_not_Metric | apply miss_log_warnings
    | exact Hte | apply metric_log_warnings].
Qed.

(** X17. [write_request] keeps the size of the guest memory and every
    byte outside the window of the request; when the request does not
    fit at the offset it writes nothing at all. *)
Theorem moduleWriteRequest_frame
    (r : RequestModule.t) (module : Memory) (stack0 : Z) :
  let offset := Z.to_nat (DecodeU32 stack0) in
  let N := length (requestBytes r) in
  let after := moduleWriteRequest r module stack0 in
  length after = length module
  ∧ (∀ i : nat, (i < offset ∨ offset + N ≤ i)%nat →
       after !! i = module !! i)
  ∧ (hasSize module (DecodeU32 stack0) (Z.of_nat N) = false →
       after = module).
Proof.
  intros offset N after. subst after. unfold moduleWriteRequest.
  pose proof (DecodeU32_nonneg stack0) as H0.
  split; [apply Memory_Write_length; exact H0|].
  unfold Memory_Write. fold N.
  destruct (hasSize module (DecodeU32 stack0) (Z.of_nat N)) eqn:E;
    cbn [fst]; [|split; [reflexivity|reflexivity]].
  split; [|discriminate].
  unfold hasSize in E. apply Z.leb_le in E. fold offset.
  unfold Memory in *. intros i [Hi|Hi].
  - rewrite lookup_app_l by (rewrite length_take; lia).
    apply lookup_take_lt. exact Hi.
  - rewrite lookup_app_r by (rewrite length_take; lia).
    rewrite lookup_app_r by (rewrite length_take; fold N; lia).
    rewrite lookup_drop, length_take. f_equal. fold N. lia.
Qed.

(** X18. After [Close], [write_request] leaves the guest memory as it
    is, at any offset: there is nothing left to write. *)
Theorem Close_then_write_request
    (r : RequestModule.t) (module : Memory) (stack0 : Z) :
  moduleWriteRequest (Close r) module stack0 = module.
Proof.
  unfold moduleWriteRequest, Close, Memory_Write. cbn [requestBytes length].
  destruct (hasSize module (DecodeU32 stack0) (Z.of_nat 0)); cbn [fst];
    [|reflexivity].
  rewrite Nat.add_0_r. cbn [app]. apply take_drop.
Qed.

Section OneWorld.
Variable W : World.

Lemma Warn_not_Poison e : is_Warn e = true → is_Poison e = false.
Proof. now destruct e. Qed.

Lemma Warn_not_CachePut e : is_Warn e = true → is_CachePut e = false.
Proof. now destruct e. Qed.

Lemma ReceiveHTTPRequest_marshal_failed r c msg id endpoint deploy e :
  uuid_Parse W (HTTPRequest.EndpointID msg) = Ok id →
  GetEndpoint (store r) id = Ok endpoint →
  GetDeploy (store r) (Endpoint.ActiveDeployID endpoint) = Ok deploy →
  prot_Marshal W msg = Err e →
  outcome (ReceiveHTTPRequest W r c msg)
  = Panic "invalid memory address or nil pointer dereference"
  ∧ all_warnings (trace (ReceiveHTTPRequest W r c msg)).
Proof.
  intros HP HE HD HM.
  unfold ReceiveHTTPRequest, MustParse, NewRequestModule, exec.
  rewrite HP. cbn. rewrite HE, HD, HM.
  destruct (Get (cache r) (Endpoint.ID endpoint)) as [mc|]; cbn;
    match goal with
    | |- context [CompileModule W ?c ?b] =>
        destruct (CompileModule W c b)
    end; cbn; split; try reflexivity; repeat constructor.
Qed.

(** X19. When endpoint and deployment resolve but the request does not
    serialise, the error of [NewRequestModule] is dropped and the handler
    panics on the nil request module; up to then it has only logged: no
    response, no poison, no metric and no cache write. *)
Theorem Receive_panics_when_marshal_fails r c msg id endpoint deploy e :
  Message_ c = HTTPRequestMsg msg →
  uuid_Parse W (HTTPRequest.EndpointID msg) = Ok id →
  GetEndpoint (store r) id = Ok endpoint →
  GetDeploy (store r) (Endpoint.ActiveDeployID endpoint) = Ok deploy →
  prot_Marshal W msg = Err e →
  outcome (Receive W r c)
  = Panic "invalid memory address or nil pointer dereference"
  ∧ all_warnings (trace (Receive W r c)).
Proof.
  intros Hc HP HE HD HM.
  destruct (Receive_HTTPRequest W r c msg Hc) as [-> ->].
  destruct (ReceiveHTTPRequest_marshal_failed r c msg id endpoint deploy e
              HP HE HD HM) as [-> Ht].
  split; [reflexivity|exact Ht].
Qed.

(** X20. [exec] on a request module never panics and never touches the
    request buffer; all it adds to the trace is at most one warning. *)
Theorem exec_keeps_request blob mc env (r : RequestModule.t) :
  ∃ t r', exec W blob mc env (Some r) = (t, Ret (Some r'))
    ∧ all_warnings t ∧ (length t ≤ 1)%nat
    ∧ requestBytes r' = requestBytes r.
Proof.
  destruct (CompileModule W mc blob) as [compiled|e] eqn:HC.
  - destruct (wasi_Instantiate W
      (builder (Itoa (Z.of_nat (length (requestBytes r)))) env))
      as [u|e] eqn:HW.
    + rewrite (exec_guest_ran W blob mc env r compiled u HC HW).
      do 2 eexists. split; [reflexivity|].
      split; [apply guest_log_warnings|].
      split; [|apply run_calls_requestBytes].
      unfold guest_log. destruct (start_err _); cbn; lia.
    + rewrite (exec_wasi_failed W blob mc env r compiled e HC HW).
      do 2 eexists. split; [reflexivity|].
      split; [repeat constructor|]. split; [cbn; lia|reflexivity].
  - rewrite (exec_compile_failed W blob mc env (Some r) e HC).
    do 2 eexists. split; [reflexivity|].
    split; [repeat constructor|]. split; [cbn; lia|reflexivity].
Qed.

Lemma counts_of_warnings (t : list Event) :
  all_warnings t →
  count is_Respond t = 0%nat ∧ count is_Poison t = 0%nat
  ∧ count is_Metric t = 0%nat ∧ count is_CachePut t = 0%nat.
Proof.
  intros H. unfold count.
  rewrite (filter_warnings is_Respond t Warn_not_Respond H),
          (filter_warnings is_Poison t Warn_not_Poison H),
          (filter_warnings is_Metric t Warn_not_Metric H),
          (filter_warnings is_CachePut t Warn_not_CachePut H).
  auto.
Qed.

(** X21. Whatever the message, the store, the libraries and the guest
    do, the four effects of a handled request come together or not at
    all: the trace of [Receive] holds as many responses as poisons, as
    metrics and as cache writes, and at most one of each. *)
Theorem Receive_effects_all_or_none (r : Runtime) (c : Context) :
  let t := trace (Receive W r c) in
  count is_Respond t = count is_Poison t
  ∧ count is_Poison t = count is_Metric t
  ∧ count is_Metric t = count is_CachePut t
  ∧ (count is_Respond t ≤ 1)%nat.
Proof.
  intros t. subst t.
  assert (Z0 : ∀ t, all_warnings t →
            count is_Respond t = count is_Poison t
            ∧ count is_Poison t = count is_Metric t
            ∧ count is_Metric t = count is_CachePut t
            ∧ (count is_Respond t ≤ 1)%nat).
  { intros t Ht. destruct (counts_of_warnings t Ht) as (-> & -> & -> & ->).
    repeat split; lia. }
  destruct (Message_ c) as [| |msg|] eqn:Hc;
    try (unfold Receive; rewrite Hc; apply Z0; constructor).
  destruct (Receive_HTTPRequest W r c msg Hc) as [-> _].
  destruct (uuid_Parse W (HTTPRequest.EndpointID msg)) as [id|e] eqn:HP.
  2:{ unfold ReceiveHTTPRequest, MustParse. rewrite HP. apply Z0.
      constructor. }
  destruct (GetEndpoint (store r) id) as [endpoint|e] eqn:HE.
  2:{ unfold ReceiveHTTPRequest, MustParse. rewrite HP. cbn. rewrite HE.
      apply Z0. repeat constructor. }
  destruct (GetDeploy (store r) (Endpoint.ActiveDeployID endpoint))
    as [deploy|e] eqn:HD.
  2:{ unfold ReceiveHTTPRequest, MustParse. rewrite HP. cbn. rewrite HE, HD.
      apply Z0. repeat constructor. }
  destruct (prot_Marshal W msg) as [b|e] eqn:HM.
  2:{ apply Z0.
      apply (ReceiveHTTPRequest_marshal_failed r c msg id endpoint deploy e
               HP HE HD HM). }
  destruct (ReceiveHTTPRequest_resolved W r c msg id endpoint deploy b
              HP HE HD HM) as (te & h & m & _ & Hte & _ & ->).
  unfold count, trace. cbn [fst].
  rewrite !resolved_trace_filter
    by first [exact Warn_not_Respond | exact Warn_not_Poison
             | exact Warn_not_Metric | exact Warn_not_CachePut
             | apply miss_log_warnings | exact Hte
             | apply metric_log_warnings].
  cbn. repeat split; lia.
Qed.

(** X22. When the endpoint id parses, endpoint and deployment resolve
    and the request serialises, the last thing in the trace is the write
    of the compilation cache under the endpoint id: on a hit the cache
    found is written back; on a miss the handler first logs
    [no cache hit] and then works with, and writes, a new cache. *)
Theorem Receive_cache_write_back r c msg id endpoint deploy b :
  Message_ c = HTTPRequestMsg msg →
  uuid_Parse W (HTTPRequest.EndpointID msg) = Ok id →
  GetEndpoint (store r) id = Ok endpoint →
  GetDeploy (store r) (Endpoint.ActiveDeployID endpoint) = Ok deploy →
  prot_Marshal W msg = Ok b →
  let t := trace (Receive W r c) in
  match Get (cache r) (Endpoint.ID endpoint) with
  | Some found =>
      last t = Some (CachePut (Endpoint.ID endpoint) found)
  | None =>
      head t = Some (Warn "no cache hit")
      ∧ last t
        = Some (CachePut (Endpoint.ID endpoint) (NewCompilationCache W))
  end.
Proof.
  intros Hc HP HE HD HM t. subst t.
  destruct (Receive_HTTPRequest W r c msg Hc) as [-> _].
  destruct (ReceiveHTTPRequest_resolved W r c msg id endpoint deploy b
              HP HE HD HM) as (te & h & m & _ & _ & _ & ->).
  unfold trace, modcache_for, miss_log. cbn [fst].
  destruct (Get (cache r) (Endpoint.ID endpoint)) as [found|].
  - rewrite !app_assoc. apply last_snoc.
  - split; [reflexivity|]. rewrite !app_assoc. apply last_snoc.
Qed.

End OneWorld.

End RuntimeWorkerMore.

(** ** The further properties on sample values *)

Section OnSample2.
Import Actrs Actrs.RequestModule Sample Sample2.

Lemma endpointsExistsInEndpoints_permutation_witness :
  ApiTest.endpointsExistsInEndpoints
    [first_endpoint; second_endpoint] [second_endpoint; first_endpoint]
  = true.
Proof.
  apply (endpointsExistsInEndpoints_permutation
           [first_endpoint; second_endpoint]
           [second_endpoint; first_endpoint]).
  apply perm_swap.
Defined.

Lemma endpointsExistsInEndpoints_same_ids_witness :
  ApiTest.ID <$> [first_endpoint; second_endpoint]
  ≡ₚ ApiTest.ID <$> [second_endpoint; first_endpoint].
Proof.
  apply (endpointsExistsInEndpoints_same_ids
           [first_endpoint; second_endpoint]
           [second_endpoint; first_endpoint]).
  - cbn. apply NoDup_cons. split; [|apply NoDup_singleton].
    rewrite list_elem_of_singleton. discriminate.
  - reflexivity.
Defined.

Lemma Started_then_request_metric_witness :
  ∃ r, Receive start_world
         (NewRuntime full_store {| CreateRuntimeMetric_err := λ _, None |}
            {| Get := λ _, None |}) start_ctx
       = ([], Ret r)
    ∧ List.filter is_Metric (trace (Receive world r (ctx request)))
      = [ CreateRuntimeMetric
            {| RuntimeMetric.ID := metric_id;
               RuntimeMetric.StartTime := 1000%Z;
               RuntimeMetric.Duration := 500%Z;
               RuntimeMetric.DeployID := deploy_id;
               RuntimeMetric.EndpointID := endpoint_id;
               RuntimeMetric.RequestURL := "/anything" |} ].
Proof.
  exact (Started_then_request_metric start_world world full_store
           {| CreateRuntimeMetric_err := λ _, None |} {| Get := λ _, None |}
           start_ctx (ctx request) request endpoint_id endpoint deploy
           (list_byte_of_string "/anything")
           eq_refl eq_refl eq_refl eq_refl eq_refl eq_refl).
Defined.

Lemma Receive_panics_when_marshal_fails_witness :
  outcome (Receive mute_world (worker full_store) (ctx request))
  = Panic "invalid memory address or nil pointer dereference"
  ∧ all_warnings (trace (Receive mute_world (worker full_store) (ctx request))).
Proof.
  exact (Receive_panics_when_marshal_fails mute_world (worker full_store)
           (ctx request) request endpoint_id endpoint deploy
           "string field contains invalid UTF-8"
           eq_refl eq_refl eq_refl eq_refl eq_refl).
Defined.

Lemma Receive_cache_write_back_witness :
  head (trace (Receive world (worker full_store) (ctx request)))
  = Some (Warn "no cache hit")
  ∧ last (trace (Receive world (worker full_store) (ctx request)))
    = Some (CachePut endpoint_id {| handle := 7 |}).
Proof.
  exact (Receive_cache_write_back world (worker full_store) (ctx request)
           request endpoint_id endpoint deploy
           (list_byte_of_string "/anything")
           eq_refl eq_refl eq_refl eq_refl eq_refl).
Defined.

(** C2 on a request that does not serialise. Endpoint id, endpoint and
    active deployment resolve, yet the worker sends no response at all:
    the error of [NewRequestModule] is dropped, the request module is
    nil, and the handler panics when [exec] reaches for its request
    buffer, with the cache miss as its only trace. The same worker in
    the same world answers the sample request with status 200. *)
Theorem Receive_resolved_request_unanswered :
  uuid_Parse utf8_world (HTTPRequest.EndpointID garbled_request)
  = Ok endpoint_id
  ∧ GetEndpoint (store (worker full_store)) endpoint_id = Ok endpoint
  ∧ GetDeploy (store (worker full_store)) (Endpoint.ActiveDeployID endpoint)
    = Ok deploy
  ∧ prot_Marshal utf8_world garbled_request
    = Err "string field contains invalid UTF-8"
  ∧ Receive utf8_world (worker full_store) (ctx garbled_request)
    = ([Warn "no cache hit"],
       Panic "invalid memory address or nil pointer dereference")
  ∧ List.filter is_Respond
      (trace (Receive utf8_world (worker full_store) (ctx garbled_request)))
    = []
  ∧ List.filter is_Respond
      (trace (Receive utf8_world (worker full_store) (ctx request)))
    = [ Respond {| HTTPResponse.Response := [x4f; x4b];
                   HTTPResponse.RequestID := "req-1";
                   HTTPResponse.StatusCode := 200 |} ].
Proof. repeat split; vm_compute; reflexivity. Qed.



Lemma moved_memory_leaves_buffer_witness :
  responseBytes
    (run_calls slash_a (puts_OK ++ write_response 0 2 :: then_moves))
  = [x4f; x4b].
Proof.
  unfold run_calls. rewrite run_steps_app.
  change (write_response 0 2 :: then_moves)
    with ([write_response 0 2] ++ grows 8 true :: [stores 0 [x01; x00]])%list.
  rewrite run_steps_app.
  rewrite (moved_memory_leaves_buffer _ 8 [stores 0 [x01; x00]] eq_refl).
  reflexivity.
Defined.

End OnSample2.
